(** * Data-Scrapping: a shallow embedding of [main.py]

    The crawler of [main.py] walks category listing pages, collects the
    product links of each page, pages through the reviews of every
    product and writes the collected rows to a CSV file.

    Conventions of the embedding.
    - A Python [str] is a list of characters.  Characters are the code
      points below 256, so that [str.isspace] and [str.lower] are the
      complete tables of that range.
    - A Python [int] is a [Z].
    - A call that may raise returns a [result]; the exception is carried
      by [Raise].
    - The network, the clock and the file system are explicit states
      threaded through the calls.
    - [urllib.parse] is embedded from CPython 3.11 ([urlsplit],
      [urlparse], [urlunsplit], [urlunparse], [urljoin]). *)

From Stdlib Require Import Ascii String List ZArith Bool Lia Arith.
From Stdlib Require DecimalString.
Import ListNotations.

Set Implicit Arguments.
Open Scope list_scope.

(** ** Python strings *)

Module PyStr.

Definition str := list ascii.

Definition lit (s : string) : str := list_ascii_of_string s.

Arguments lit : simpl never.

Definition code (c : ascii) : nat := nat_of_ascii c.

Definition str_eqb (a b : str) : bool :=
  if list_eq_dec ascii_dec a b then true else false.

Definition truthy (s : str) : bool :=
  match s with [] => false | _ :: _ => true end.

Definition mem (c : ascii) (s : str) : bool := existsb (Ascii.eqb c) s.

Fixpoint take_while (p : ascii -> bool) (s : str) : str :=
  match s with
  | [] => []
  | c :: t => if p c then c :: take_while p t else []
  end.

Fixpoint drop_while (p : ascii -> bool) (s : str) : str :=
  match s with
  | [] => []
  | c :: t => if p c then drop_while p t else s
  end.

(** [s.lstrip(chars)], [s.rstrip(chars)], [s.strip(chars)] with the set of
    stripped characters given as a predicate. *)
Definition lstrip_by (p : ascii -> bool) (s : str) : str := drop_while p s.

Definition rstrip_by (p : ascii -> bool) (s : str) : str :=
  rev (drop_while p (rev s)).

Definition strip_by (p : ascii -> bool) (s : str) : str :=
  rstrip_by p (lstrip_by p s).

(** [str.isspace] on one character: U+0009..U+000D, U+001C..U+0020,
    U+0085 and U+00A0. *)
Definition isspace (c : ascii) : bool :=
  let n := code c in
  ((9 <=? n) && (n <=? 13)) || ((28 <=? n) && (n <=? 32))
  || (n =? 133) || (n =? 160).

(** [s.strip()] *)
Definition strip (s : str) : str := strip_by isspace s.

Definition is_ascii_upper (c : ascii) : bool :=
  let n := code c in (65 <=? n) && (n <=? 90).

Definition is_ascii_lower (c : ascii) : bool :=
  let n := code c in (97 <=? n) && (n <=? 122).

Definition is_ascii_digit (c : ascii) : bool :=
  let n := code c in (48 <=? n) && (n <=? 57).

(** [c.isascii() and c.isalpha()] *)
Definition is_ascii_alpha (c : ascii) : bool :=
  is_ascii_upper c || is_ascii_lower c.

(** [str.lower] on one character: the ASCII capitals and the capitals
    U+00C0..U+00DE of Latin-1, the multiplication sign U+00D7 apart. *)
Definition lower_char (c : ascii) : ascii :=
  let n := code c in
  if is_ascii_upper c then ascii_of_nat (n + 32)
  else if (192 <=? n) && (n <=? 222) && negb (n =? 215)
       then ascii_of_nat (n + 32)
       else c.

(** [s.lower()] *)
Definition lower (s : str) : str := map lower_char s.

Fixpoint startswith (p s : str) : bool :=
  match p, s with
  | [], _ => true
  | _ :: _, [] => false
  | a :: p', b :: s' => Ascii.eqb a b && startswith p' s'
  end.

(** [s.partition(c)] for a one-character separator: the text before the
    first [c] and the text after it, or [None] when [c] does not occur.
    It is also [s.split(c, 1)], and [s[:i], s[i+1:]] for [i = s.find(c)]. *)
Fixpoint partition (c : ascii) (s : str) : option (str * str) :=
  match s with
  | [] => None
  | x :: t =>
      if Ascii.eqb x c then Some ([], t)
      else match partition c t with
           | Some (a, b) => Some (x :: a, b)
           | None => None
           end
  end.

(** [s.rpartition(c)[2]]: the text after the last [c], all of [s] when
    there is none. *)
Fixpoint after_last (c : ascii) (s : str) : str :=
  match s with
  | [] => []
  | x :: t => if mem c t then after_last c t
              else if Ascii.eqb x c then t else s
  end.

(** [s.split(c)] for a one-character separator. *)
Fixpoint split_on (c : ascii) (s : str) : list str :=
  match s with
  | [] => [[]]
  | x :: t =>
      if Ascii.eqb x c then [] :: split_on c t
      else match split_on c t with
           | [] => [[x]]
           | h :: r => (x :: h) :: r
           end
  end.

(** [c.join(parts)] *)
Fixpoint join (c : str) (parts : list str) : str :=
  match parts with
  | [] => []
  | [p] => p
  | p :: r => p ++ c ++ join c r
  end.

(** [s.split()]: the maximal runs of characters that are not white
    space. *)
Fixpoint split_ws_aux (cur : str) (s : str) : list str :=
  match s with
  | [] => match cur with [] => [] | _ => [rev cur] end
  | c :: t =>
      if isspace c
      then match cur with
           | [] => split_ws_aux [] t
           | _ => rev cur :: split_ws_aux [] t
           end
      else split_ws_aux (c :: cur) t
  end.

Definition split_ws (s : str) : list str := split_ws_aux [] s.

(** [d.get(key)] on a dictionary given by its items. *)
Fixpoint lookup {V : Type} (key : str) (d : list (str * V)) : option V :=
  match d with
  | [] => None
  | (k, v) :: r => if str_eqb k key then Some v else lookup key r
  end.

End PyStr.
Export PyStr.

(** ** Exceptions *)

Inductive exn : Type :=
| ValueError
| KeyError
| HTTPError
| RequestException
| OSError.

Inductive result (A : Type) : Type :=
| Ok (a : A)
| Raise (e : exn).

Arguments Ok {A} a.
Arguments Raise {A} e.

Definition rbind {A B} (r : result A) (k : A -> result B) : result B :=
  match r with
  | Ok a => k a
  | Raise e => Raise e
  end.

(** ** [urllib.parse] *)

Module Urllib.

(** The two checks of a network location that go through other
    libraries: the validation of a bracketed host ([ipaddress] and [re])
    and the NFKC test of [_checknetloc] ([unicodedata]), which is only
    reached by a network location that is not ASCII.  Each answers
    whether the network location passes. *)
Class NetlocChecks : Type := {
  check_bracketed_netloc : str -> bool;
  checknetloc_nfkc : str -> bool
}.

Definition uses_relative : list str :=
  map lit [EmptyString; "ftp"; "http"; "gopher"; "nntp"; "imap";
           "wais"; "file"; "https"; "shttp"; "mms";
           "prospero"; "rtsp"; "rtspu"; "sftp";
           "svn"; "svn+ssh"; "ws"; "wss"]%string.

Definition uses_netloc : list str :=
  map lit [EmptyString; "ftp"; "http"; "gopher"; "nntp"; "telnet";
           "imap"; "wais"; "file"; "mms"; "https"; "shttp";
           "snews"; "prospero"; "rtsp"; "rtspu"; "rsync";
           "svn"; "svn+ssh"; "sftp"; "nfs"; "git"; "git+ssh";
           "ws"; "wss"]%string.

Definition uses_params : list str :=
  map lit [EmptyString; "ftp"; "hdl"; "prospero"; "http"; "imap";
           "https"; "shttp"; "rtsp"; "rtspu"; "sip"; "sips";
           "mms"; "sftp"; "tel"]%string.

Definition in_list (s : str) (l : list str) : bool := existsb (str_eqb s) l.

(** [c in scheme_chars] *)
Definition is_scheme_char (c : ascii) : bool :=
  is_ascii_lower c || is_ascii_upper c || is_ascii_digit c
  || Ascii.eqb c "+" || Ascii.eqb c "-" || Ascii.eqb c ".".

(** [c in _WHATWG_C0_CONTROL_OR_SPACE] *)
Definition is_c0_or_space (c : ascii) : bool := code c <=? 32.

(** [c in _UNSAFE_URL_BYTES_TO_REMOVE] *)
Definition is_unsafe (c : ascii) : bool :=
  (code c =? 9) || (code c =? 13) || (code c =? 10).

Definition remove_unsafe (s : str) : str :=
  filter (fun c => negb (is_unsafe c)) s.

Definition isascii (s : str) : bool := forallb (fun c => code c <? 128) s.

Record SplitResult : Type := mkSplit {
  s_scheme : str; s_netloc : str; s_path : str;
  s_query : str; s_fragment : str
}.

Record ParseResult : Type := mkParse {
  scheme : str; netloc : str; path : str;
  params : str; query : str; fragment : str
}.

(** The scheme test of [urlsplit]: [i = url.find(':')], [i > 0], the
    first character an ASCII letter and every character before the colon
    a scheme character. *)
Definition split_scheme (default url : str) : str * str :=
  match partition ":" url with
  | Some (c :: pre, rest) =>
      if is_ascii_alpha c && forallb is_scheme_char (c :: pre)
      then (lower (c :: pre), rest)
      else (default, url)
  | _ => (default, url)
  end.

Definition is_netloc_delim (c : ascii) : bool :=
  Ascii.eqb c "/" || Ascii.eqb c "?" || Ascii.eqb c "#".

(** [_splitnetloc(url, 2)] *)
Definition splitnetloc2 (url : str) : str * str :=
  let rest := skipn 2 url in
  (take_while (fun c => negb (is_netloc_delim c)) rest,
   drop_while (fun c => negb (is_netloc_delim c)) rest).

Section Checked.
Context {NC : NetlocChecks}.

(** The bracket tests of [urlsplit] on a network location. *)
Definition brackets_ok (nl : str) : bool :=
  let o := mem "[" nl in
  let c := mem "]" nl in
  if (o && negb c) || (c && negb o) then false
  else if o && c then check_bracketed_netloc nl
  else true.

(** [_checknetloc] *)
Definition checknetloc (nl : str) : bool :=
  if negb (truthy nl) || isascii nl then true else checknetloc_nfkc nl.

(** [urlsplit(url, scheme)] *)
Definition urlsplit (url0 scheme0 : str) : result SplitResult :=
  let url := lstrip_by is_c0_or_space url0 in
  let scheme := strip_by is_c0_or_space scheme0 in
  let url := remove_unsafe url in
  let scheme := remove_unsafe scheme in
  let '(scheme, url) := split_scheme scheme url in
  let '(netloc, url) :=
    if startswith (lit "//") url then splitnetloc2 url else ([], url) in
  if negb (brackets_ok netloc) then Raise ValueError
  else
    let '(url, fragment) :=
      match partition "#" url with
      | Some (a, b) => (a, b)
      | None => (url, [])
      end in
    let '(url, query) :=
      match partition "?" url with
      | Some (a, b) => (a, b)
      | None => (url, [])
      end in
    if negb (checknetloc netloc) then Raise ValueError
    else Ok (mkSplit scheme netloc url query fragment).

(** [_splitparams(url)] under its guard [';' in url]: the cut is at the
    first semicolon of the last segment. *)
Definition splitparams (url : str) : str * str :=
  if mem "/" url then
    let seg := after_last "/" url in
    let dir := firstn (List.length url - List.length seg) url in
    match partition ";" seg with
    | Some (a, b) => (dir ++ a, b)
    | None => (url, [])
    end
  else
    match partition ";" url with
    | Some (a, b) => (a, b)
    | None => (url, [])
    end.

(** [urlparse(url, scheme)] *)
Definition urlparse (url scheme0 : str) : result ParseResult :=
  rbind (urlsplit url scheme0) (fun r =>
    let '(url, params) :=
      if in_list (s_scheme r) uses_params && mem ";" (s_path r)
      then splitparams (s_path r)
      else (s_path r, []) in
    Ok (mkParse (s_scheme r) (s_netloc r) url params
                (s_query r) (s_fragment r))).

End Checked.

(** [urlunsplit((scheme, netloc, url, query, fragment))] *)
Definition urlunsplit (scheme netloc url query fragment : str) : str :=
  let url :=
    if truthy netloc
       || (truthy scheme && in_list scheme uses_netloc
           && negb (startswith (lit "//") url))
    then
      let url :=
        if truthy url && negb (startswith (lit "/") url)
        then lit "/" ++ url else url in
      lit "//" ++ netloc ++ url
    else url in
  let url := if truthy scheme then scheme ++ lit ":" ++ url else url in
  let url := if truthy query then url ++ lit "?" ++ query else url in
  let url := if truthy fragment then url ++ lit "#" ++ fragment else url in
  url.

(** [urlunparse(components)] *)
Definition urlunparse (p : ParseResult) : str :=
  let url :=
    if truthy (params p) then path p ++ lit ";" ++ params p else path p in
  urlunsplit (scheme p) (netloc p) url (query p) (fragment p).

End Urllib.
Export Urllib.

(** ** [main.py]: the URL normalizer *)

(** [parsed._replace(query="", fragment="")] *)
Definition replace_query_fragment (p : ParseResult) : ParseResult :=
  mkParse (scheme p) (netloc p) (path p) (params p) [] [].

Definition normalize_url {NC : NetlocChecks} (url : str) : result str :=
  rbind (urlparse url [])
        (fun parsed => Ok (urlunparse (replace_query_fragment parsed))).

(** ** [urllib.parse.urljoin] *)

Module Urljoin.

(** [segments[1:-1] = filter(None, segments[1:-1])]: the empty segments
    strictly between the first and the last are dropped. *)
Definition filter_middle (segments : list str) : list str :=
  match segments with
  | [] => []
  | [a] => [a]
  | a :: rest => a :: filter truthy (removelast rest) ++ [last rest []]
  end.

(** The loop of [urljoin] over the segments: [..] pops the last resolved
    segment when there is one, [.] is skipped, anything else is
    appended. *)
Fixpoint resolve_segments (resolved : list str) (segments : list str)
  : list str :=
  match segments with
  | [] => resolved
  | seg :: rest =>
      if str_eqb seg (lit "..") then resolve_segments (removelast resolved) rest
      else if str_eqb seg (lit ".") then resolve_segments resolved rest
      else resolve_segments (resolved ++ [seg]) rest
  end.

Definition urljoin {NC : NetlocChecks} (base url : str) : result str :=
  if negb (truthy base) then Ok url
  else if negb (truthy url) then Ok base
  else
    rbind (urlparse base []) (fun b =>
    rbind (urlparse url (scheme b)) (fun u =>
      if negb (str_eqb (scheme u) (scheme b))
         || negb (in_list (scheme u) uses_relative)
      then Ok url
      else if in_list (scheme u) uses_netloc && truthy (netloc u)
      then Ok (urlunparse u)
      else
        let netloc' :=
          if in_list (scheme u) uses_netloc then netloc b else netloc u in
        if negb (truthy (path u)) && negb (truthy (params u))
        then
          Ok (urlunparse
                (mkParse (scheme u) netloc' (path b) (params b)
                         (if truthy (query u) then query u else query b)
                         (fragment u)))
        else
          let base_parts := split_on "/" (path b) in
          let base_parts :=
            if truthy (last base_parts []) then removelast base_parts
            else base_parts in
          let segments :=
            if startswith (lit "/") (path u) then split_on "/" (path u)
            else filter_middle (base_parts ++ split_on "/" (path u)) in
          let resolved_path := resolve_segments [] segments in
          let resolved_path :=
            if str_eqb (last segments []) (lit ".")
               || str_eqb (last segments []) (lit "..")
            then resolved_path ++ [[]]
            else resolved_path in
          let joined := join (lit "/") resolved_path in
          Ok (urlunparse
                (mkParse (scheme u) netloc'
                         (if truthy joined then joined else lit "/")
                         (params u) (query u) (fragment u))))).

End Urljoin.
Export Urljoin.
(** ** The parsed document and its CSS queries *)

Module Soup.

(** A node of the tree built by [BeautifulSoup(html, "html.parser")]: a
    text string, a string that [get_text] leaves out (a comment, a
    declaration, the content of a script or style element), or a tag with
    its name, the values of its [class] attribute, its other attributes
    and its children. *)
#[warnings="-register-all"]
Inductive node : Type :=
| Text (s : str)
| Comment (s : str)
| Tag (name : str) (classes : list str) (attrs : list (str * str))
      (children : list node).

Definition soup := list node.

Definition children (n : node) : list node :=
  match n with
  | Tag _ _ _ ch => ch
  | _ => []
  end.

(** The tags of the subtree of [n], [n] included, in document order, each
    with its ancestors, the nearest first. *)
Fixpoint subtree (anc : list node) (n : node) : list (list node * node) :=
  match n with
  | Tag _ _ _ ch => (anc, n) :: flat_map (subtree (n :: anc)) ch
  | _ => []
  end.

(** The tags below [n], in document order. *)
Definition descendants (n : node) : list (list node * node) :=
  flat_map (subtree [n]) (children n).

(** The text strings of the subtree of [n], in document order. *)
Fixpoint all_strings (n : node) : list str :=
  match n with
  | Text s => [s]
  | Comment _ => []
  | Tag _ _ _ ch => flat_map all_strings ch
  end.

(** [el.get_text(strip=True)]: every string is stripped, the empty ones
    are dropped, the rest is joined without a separator. *)
Definition get_text_strip (n : node) : str :=
  concat (filter truthy (map strip (all_strings n))).

(** [a.get(name)] *)
Definition attr (name : str) (n : node) : option str :=
  match n with
  | Tag _ _ at_ _ => lookup name at_
  | _ => None
  end.

(** A compound selector [tag.class1.class2]; the tag may be absent. *)
Record compound : Type := mkCompound {
  c_tag : option str;
  c_classes : list str
}.

(** A chain of compound selectors joined by the descendant combinator:
    the compounds of the ancestors, the outermost first, and the compound
    of the selected tag. *)
Record complex : Type := mkComplex {
  c_ancestors : list compound;
  c_subject : compound
}.

(** A selector list [a, b, c]. *)
Definition selector := list complex.

Definition matches_compound (c : compound) (n : node) : bool :=
  match n with
  | Tag name cls _ _ =>
      match c_tag c with
      | Some t => str_eqb t name
      | None => true
      end
      && forallb (fun k => existsb (str_eqb k) cls) (c_classes c)
  | _ => false
  end.

(** The compounds [cs], the nearest first, are matched by ancestors of
    [anc], the nearest first, in that order. *)
Fixpoint chain_matches (cs : list compound) (anc : list node) : bool :=
  match cs with
  | [] => true
  | c :: cs' =>
      match anc with
      | [] => false
      | a :: anc' =>
          if matches_compound c a then chain_matches cs' anc'
          else chain_matches cs anc'
      end
  end.

Definition matches_complex (cx : complex) (anc : list node) (n : node)
  : bool :=
  matches_compound (c_subject cx) n
  && chain_matches (rev (c_ancestors cx)) anc.

Definition matches (sel : selector) (e : list node * node) : bool :=
  existsb (fun cx => matches_complex cx (fst e) (snd e)) sel.

(** [soup.select(sel)] *)
Definition select (sel : selector) (doc : soup) : list node :=
  map snd (filter (matches sel) (flat_map (subtree []) doc)).

(** [tag.select(sel)].  The selectors applied to a tag in [main.py] are
    single compounds, whose match does not look at the ancestors. *)
Definition select_in (sel : selector) (n : node) : list node :=
  map snd (filter (matches sel) (descendants n)).

(** [tag.select_one(sel)] *)
Definition select_one (sel : selector) (n : node) : option node :=
  hd_error (select_in sel n).

Definition tag_ (t : string) : compound := mkCompound (Some (lit t)) [].
Definition tag_cls (t : string) (cls : list string) : compound :=
  mkCompound (Some (lit t)) (map lit cls).
Definition cls_ (cls : list string) : compound :=
  mkCompound None (map lit cls).
Definition simple (c : compound) : complex := mkComplex [] c.

End Soup.
Export Soup.

(** ** [main.py]: the review extractor *)

Record review : Type := mkReview {
  title : str;
  rating : str;
  body : str;
  author : str;
  date : str
}.

(** ["article.-review, div.-review, article.review, div.review"] *)
Definition sel_review_blocks : selector :=
  [simple (tag_cls "article" ["-review"%string]);
   simple (tag_cls "div" ["-review"%string]);
   simple (tag_cls "article" ["review"%string]);
   simple (tag_cls "div" ["review"%string])].

(** ["section.card.aim article"] *)
Definition sel_card_articles : selector :=
  [mkComplex [tag_cls "section" ["card"; "aim"]%string] (tag_ "article")].

Definition sel_h3 : selector := [simple (tag_ "h3")].
Definition sel_p : selector := [simple (tag_ "p")].
Definition sel_stars : selector := [simple (cls_ ["stars"%string])].
Definition sel_span : selector := [simple (tag_ "span")].

(** ["div.-df.-j-bet.-i-ctr.-gy5"] *)
Definition sel_meta_div : selector :=
  [simple (tag_cls "div" ["-df"; "-j-bet"; "-i-ctr"; "-gy5"]%string)].

(** The author of a block from the text of the second span of the
    metadata container (lines 71 to 75). *)
Definition author_of_text (author_text : str) : str :=
  if startswith (lit "by ") (lower author_text)
  then strip (skipn 3 author_text)
  else author_text.

(** The [date] and the [author] of a block (lines 63 to 75). *)
Definition block_meta (block : node) : str * str :=
  match select_one sel_meta_div block with
  | Some meta_div =>
      let spans := select_in sel_span meta_div in
      let date :=
        match nth_error spans 0 with
        | Some sp => get_text_strip sp
        | None => []
        end in
      let author :=
        match nth_error spans 1 with
        | Some sp => author_of_text (get_text_strip sp)
        | None => []
        end in
      (date, author)
  | None => ([], [])
  end.

Definition block_title (block : node) : str :=
  match select_one sel_h3 block with
  | Some title_el => get_text_strip title_el
  | None => []
  end.

Definition block_body (block : node) : str :=
  match select_in sel_p block with
  | body_el :: _ => get_text_strip body_el
  | [] => []
  end.

Definition block_rating (block : node) : str :=
  match select_one sel_stars block with
  | Some rating_el =>
      match split_ws (get_text_strip rating_el) with
      | part :: _ => part
      | [] => []
      end
  | None => []
  end.

(** One turn of the loop over the blocks (lines 55 to 98): the record the
    block adds to [reviews], if it adds one. *)
Definition block_review (block : node) : option review :=
  let '(date, author) := block_meta block in
  let title := block_title block in
  let body := block_body block in
  let rating := block_rating block in
  if negb (truthy body) && negb (truthy title) then None
  else Some (mkReview title rating body author date).

Definition review_blocks (doc : soup) : list node :=
  match select sel_review_blocks doc with
  | [] => select sel_card_articles doc
  | blocks => blocks
  end.

(** [parse_reviews] on the parsed document. *)
Definition parse_reviews_soup (doc : soup) : list review :=
  flat_map (fun block =>
              match block_review block with
              | Some r => [r]
              | None => []
              end)
           (review_blocks doc).

(** The parser behind [BeautifulSoup(html, "html.parser")]. *)
Class HtmlParser : Type := { html_parser : str -> soup }.

Definition parse_reviews {HP : HtmlParser} (html : str) : list review :=
  parse_reviews_soup (html_parser html).

(** ** [main.py]: the product-link extractor *)

Definition sel_a_core : selector := [simple (tag_cls "a" ["core"%string])].

(** ["article a"] *)
Definition sel_article_a : selector :=
  [mkComplex [tag_ "article"] (tag_ "a")].

Definition product_links (doc : soup) : list node :=
  match select sel_a_core doc with
  | [] => select sel_article_a doc
  | links => links
  end.

(** [list(dict.fromkeys(urls))]: a key that is already in the dictionary
    keeps its place, a new one goes to the end. *)
Definition dict_fromkeys (urls : list str) : list str :=
  fold_left (fun keys u => if in_list u keys then keys else keys ++ [u])
            urls [].

(** The loop over the anchors (lines 129 to 134), with [urls] as the
    accumulator. *)
Fixpoint collect_urls {NC : NetlocChecks} (base : str) (links : list node)
  (urls : list str) : result (list str) :=
  match links with
  | [] => Ok urls
  | a :: rest =>
      match attr (lit "href") a with
      | Some (c :: h) =>
          rbind (urljoin base (c :: h)) (fun full =>
          rbind (normalize_url full) (fun u =>
          collect_urls base rest (urls ++ [u])))
      | _ => collect_urls base rest urls
      end
  end.

Definition parse_category_product_urls_soup {NC : NetlocChecks}
  (doc : soup) (category_url : str) : result (list str) :=
  rbind (collect_urls category_url (product_links doc) [])
        (fun urls => Ok (dict_fromkeys urls)).

Definition parse_category_product_urls {NC : NetlocChecks} {HP : HtmlParser}
  (html : str) (category_url : str) : result (list str) :=
  parse_category_product_urls_soup (html_parser html) category_url.

(** ** The world of the crawler *)

(** The answer of [requests.get]. *)
Record response : Type := mkResponse {
  status_code : Z;
  text : str
}.

(** What [main.py] asks of its surroundings: the network behind
    [requests.get(url, headers=..., params=..., timeout=...)], and the
    clock behind [time.sleep].  The delay is a Python [float], of which
    the crawler only tests the truth value. *)
Class Env : Type := {
  World : Type;
  Delay : Type;
  delay_truthy : Delay -> bool;
  requests_get :
    str -> list (str * str) -> list (str * Z) -> Z -> World ->
    result response * World;
  time_sleep : Delay -> World -> result unit * World
}.

(** Computations that read and change the world and may raise. *)
Definition M {E : Env} (A : Type) : Type := World -> result A * World.

Definition ret {E : Env} {A} (a : A) : M A := fun w => (Ok a, w).

Definition raise {E : Env} {A} (e : exn) : M A := fun w => (Raise e, w).

Definition bind {E : Env} {A B} (m : M A) (k : A -> M B) : M B :=
  fun w =>
    match m w with
    | (Ok a, w') => k a w'
    | (Raise e, w') => (Raise e, w')
    end.

Definition lift {E : Env} {A} (r : result A) : M A := fun w => (r, w).

Notation "x <- m ;; k" := (bind m (fun x => k))
  (at level 61, m at next level, right associativity).

(** ** [main.py]: the page fetcher *)

Definition CATEGORY_URLS : list (str * str) :=
  [(lit "electronics", lit "https://www.konga.com/category/electronics-5261");
   (lit "home_office", lit "https://www.konga.com/category/home-kitchen-602");
   (lit "health_beauty_personal_care",
    lit "https://www.konga.com/category/beauty-health-personal-care-4");
   (lit "phones_tablets",
    lit "https://www.konga.com/category/phones-tablets-5294");
   (lit "fashion", lit "https://www.konga.com/category/konga-fashion-1259")].

Definition HEADERS : list (str * str) :=
  [(lit "User-Agent",
    lit "Mozilla/5.0 (Windows NT 10.0; Win64; x64) "
    ++ lit "AppleWebKit/537.36 (KHTML, like Gecko) "
    ++ lit "Chrome/122.0 Safari/537.36");
   (lit "Accept-Language", lit "en-US,en;q=0.9")].

(** [response.raise_for_status()] raises on the statuses 400 to 599. *)
Definition is_error_status (r : response) : bool :=
  ((400 <=? status_code r) && (status_code r <? 600))%Z.

Definition fetch_page {E : Env} (url : str) (params : list (str * Z))
  : M str :=
  response <- requests_get url HEADERS params 20%Z ;;
  if is_error_status response then raise HTTPError
  else ret (text response).

(** [range(1, pages + 1)] *)
Definition page_range (pages : Z) : list Z :=
  map Z.of_nat (seq 1 (Z.to_nat pages)).

(** ** [main.py]: the product review crawler *)

Section Crawler.
Context {E : Env} {NC : NetlocChecks} {HP : HtmlParser}.

Definition sleep_if (b : bool) (delay_seconds : Delay) : M unit :=
  if b then time_sleep delay_seconds else ret tt.

(** The loop of [scrape_jumia_reviews] over the page numbers still to
    visit; returning before the end of the list is the [break]. *)
Fixpoint review_pages_loop (base_url : str) (pages : Z) (delay_seconds : Delay)
  (todo : list Z) (all_reviews : list review) : M (list review) :=
  match todo with
  | [] => ret all_reviews
  | page :: rest =>
      html <- fetch_page base_url [(lit "page", page)] ;;
      match parse_reviews html with
      | [] => ret all_reviews
      | page_reviews =>
          _ <- sleep_if (delay_truthy delay_seconds && (page <? pages)%Z)
                        delay_seconds ;;
          review_pages_loop base_url pages delay_seconds rest
                            (all_reviews ++ page_reviews)
      end
  end.

Definition scrape_jumia_reviews (product_url : str) (pages : Z)
  (delay_seconds : Delay) : M (list review) :=
  base_url <- lift (normalize_url product_url) ;;
  review_pages_loop base_url pages delay_seconds (page_range pages) [].

(** ** [main.py]: the category crawler *)

Record row : Type := mkRow {
  row_category : str;
  row_product_url : str;
  row_title : str;
  row_rating : str;
  row_body : str;
  row_author : str;
  row_date : str
}.

(** [row = dict(r)] with the keys [category] and [product_url] added. *)
Definition tag_review (category_key product_url : str) (r : review) : row :=
  mkRow category_key product_url
        (title r) (rating r) (body r) (author r) (date r).

(** The loop over the product URLs of one category page. *)
Fixpoint products_loop (category_key : str) (review_pages : Z)
  (delay_seconds : Delay) (product_urls : list str) (all_rows : list row)
  : M (list row) :=
  match product_urls with
  | [] => ret all_rows
  | product_url :: rest =>
      product_reviews <-
        scrape_jumia_reviews product_url review_pages delay_seconds ;;
      products_loop category_key review_pages delay_seconds rest
        (all_rows ++ map (tag_review category_key product_url) product_reviews)
  end.

(** The loop of [scrape_category] over the page numbers still to visit. *)
Fixpoint category_pages_loop (category_key category_url : str)
  (review_pages : Z) (delay_seconds : Delay) (todo : list Z)
  (all_rows : list row) : M (list row) :=
  match todo with
  | [] => ret all_rows
  | page :: rest =>
      html <- fetch_page category_url [(lit "page", page)] ;;
      product_urls <- lift (parse_category_product_urls html category_url) ;;
      match product_urls with
      | [] => ret all_rows
      | _ =>
          all_rows <- products_loop category_key review_pages delay_seconds
                                    product_urls all_rows ;;
          _ <- sleep_if (delay_truthy delay_seconds) delay_seconds ;;
          category_pages_loop category_key category_url review_pages
                              delay_seconds rest all_rows
      end
  end.

(** [CATEGORY_URLS[category_key]] *)
Definition registry_lookup (key : str) : result str :=
  match lookup key CATEGORY_URLS with
  | Some url => Ok url
  | None => Raise KeyError
  end.

(** [key in CATEGORY_URLS] *)
Definition registered (key : str) : bool :=
  match lookup key CATEGORY_URLS with
  | Some _ => true
  | None => false
  end.

Definition scrape_category (category_key : str) (pages review_pages : Z)
  (delay_seconds : Delay) : M (list row) :=
  category_url <- lift (registry_lookup category_key) ;;
  category_pages_loop category_key category_url review_pages delay_seconds
                      (page_range pages) [].

(** ** [main.py]: the multi-category orchestrator *)

Fixpoint categories_loop (categories : list str)
  (category_pages review_pages : Z) (delay_seconds : Delay)
  (all_rows : list row) : M (list row) :=
  match categories with
  | [] => ret all_rows
  | key :: rest =>
      if negb (registered key)
      then categories_loop rest category_pages review_pages delay_seconds
                           all_rows
      else
        rows <- scrape_category key category_pages review_pages
                                delay_seconds ;;
        categories_loop rest category_pages review_pages delay_seconds
                        (all_rows ++ rows)
  end.

Definition scrape_multiple_categories (categories : list str)
  (category_pages review_pages : Z) (delay_seconds : Delay) : M (list row) :=
  categories_loop categories category_pages review_pages delay_seconds [].

End Crawler.

(** ** [main.py]: the tabular writer *)

Module Csv.

Definition dquote : ascii := ascii_of_nat 34.
Definition cr : ascii := ascii_of_nat 13.
Definition lf : ascii := ascii_of_nat 10.

(** The characters that make [csv.writer] quote a field under the
    default dialect: the delimiter, the quote character and the
    characters of the line terminator. *)
Definition needs_quote (c : ascii) : bool :=
  Ascii.eqb c "," || Ascii.eqb c dquote || Ascii.eqb c cr || Ascii.eqb c lf.

(** Every quote character of the field is doubled. *)
Definition double_quotes (field : str) : str :=
  flat_map (fun c => if Ascii.eqb c dquote then [dquote; dquote] else [c])
           field.

Definition quote_field (field : str) : str :=
  if existsb needs_quote field
  then [dquote] ++ double_quotes field ++ [dquote]
  else field.

(** [writer.writerow(fields)]: the text of one row.  A row made of one
    empty field is written as two quote characters. *)
Definition row_text (fields : list str) : str :=
  match fields with
  | [[]] => [dquote; dquote; cr; lf]
  | _ => join (lit ",") (map quote_field fields) ++ [cr; lf]
  end.

End Csv.

(** The files by path, with the text each holds, and the paths that
    [open(path, "w")] can open. *)
Record FileSystem : Type := mkFS {
  files : str -> option str;
  writable : str -> bool
}.

Definition set_file (fs : FileSystem) (path : str) (data : str)
  : FileSystem :=
  mkFS (fun p => if str_eqb p path then Some data else files fs p)
       (writable fs).

(** [open(filename, "w", ...)]: the file is created or truncated. *)
Definition open_w (filename : str) (fs : FileSystem) : result FileSystem :=
  if writable fs filename then Ok (set_file fs filename [])
  else Raise OSError.

(** [f.write(data)] on a file opened for writing. *)
Definition write (filename : str) (data : str) (fs : FileSystem)
  : FileSystem :=
  match files fs filename with
  | Some old => set_file fs filename (old ++ data)
  | None => set_file fs filename data
  end.

Definition fieldnames : list str :=
  map lit ["category"; "product_url"; "title"; "rating"; "body"; "author";
           "date"]%string.

(** [rowdict.get(key)] for the keys of [fieldnames], in that order. *)
Definition row_fields (r : row) : list str :=
  [row_category r; row_product_url r; row_title r; row_rating r;
   row_body r; row_author r; row_date r].

(** [writer.writerows(reviews)] *)
Fixpoint writerows (filename : str) (reviews : list row) (fs : FileSystem)
  : FileSystem :=
  match reviews with
  | [] => fs
  | r :: rest =>
      writerows filename rest (write filename (Csv.row_text (row_fields r)) fs)
  end.

Definition save_reviews_to_csv (reviews : list row) (filename : str)
  (fs : FileSystem) : result unit * FileSystem :=
  match reviews with
  | [] => (Ok tt, fs)
  | _ =>
      match open_w filename fs with
      | Raise e => (Raise e, fs)
      | Ok fs =>
          let fs := write filename (Csv.row_text fieldnames) fs in
          let fs := writerows filename reviews fs in
          (Ok tt, fs)
      end
  end.

(** ** [main.py]: the entry point *)

(** The arguments after [parser.parse_args()]. *)
Record Args {E : Env} : Type := mkArgs {
  arg_categories : list str;
  arg_category_pages : Z;
  arg_review_pages : Z;
  arg_output : str;
  arg_delay : Delay
}.

(** [str(n)] for a length. *)
Definition decimal (n : nat) : str :=
  lit (DecimalString.NilZero.string_of_uint (Nat.to_uint n)).

(** [main] after the arguments are parsed: the crawl, the first line
    printed, the writer, the second line printed.  The result comes with
    the world, the file system and the lines printed. *)
Definition main {E : Env} {NC : NetlocChecks} {HP : HtmlParser}
  (args : Args) (w : World) (fs : FileSystem)
  : result unit * (World * FileSystem * list str) :=
  match scrape_multiple_categories (arg_categories args)
          (arg_category_pages args) (arg_review_pages args)
          (arg_delay args) w with
  | (Raise e, w') => (Raise e, (w', fs, []))
  | (Ok reviews, w') =>
      let fetched :=
        lit "Fetched " ++ decimal (length reviews) ++ lit " reviews" in
      match save_reviews_to_csv reviews (arg_output args) fs with
      | (Raise e, fs') => (Raise e, (w', fs', [fetched]))
      | (Ok _, fs') =>
          (Ok tt,
           (w', fs',
            [fetched; lit "Saved reviews to " ++ arg_output args]))
      end
  end.

(** ** Worlds and parsers for closed examples *)

Module TraceWorld.

(** What the crawler did to the world, the latest event last. *)
Inductive event : Type :=
| Get (url : str) (params : list (str * Z))
| Sleep (seconds : Z).

(** A site answers a request by its URL and parameters. *)
Definition site := str -> list (str * Z) -> result response.

(** The world that records the requests and the sleeps.  The delay is a
    whole number of seconds; [time.sleep] raises on a negative one. *)
Definition trace_env (s : site) : Env :=
  {| World := list event;
     Delay := Z;
     delay_truthy := fun d => negb (d =? 0)%Z;
     requests_get := fun url _ params _ w =>
                       (s url params, w ++ [Get url params]);
     time_sleep := fun d w =>
                     if (d <? 0)%Z then (Raise ValueError, w)
                     else (Ok tt, w ++ [Sleep d]) |}.

(** A parser given by its graph on the documents of an example. *)
Definition table_parser (table : list (str * soup)) : HtmlParser :=
  {| html_parser := fun html =>
                      match lookup html table with
                      | Some doc => doc
                      | None => []
                      end |}.

(** Network-location checks that let every network location pass. *)
Definition lax_checks : NetlocChecks :=
  {| check_bracketed_netloc := fun _ => true;
     checknetloc_nfkc := fun _ => true |}.

Definition page_ok (html : string) : result response :=
  Ok (mkResponse 200 (lit html)).

Definition el (name : string) (cls : list string) (ch : list node) : node :=
  Tag (lit name) (map lit cls) [] ch.

Definition anchor (cls : list string) (href : string) : node :=
  Tag (lit "a") (map lit cls) [(lit "href", lit href)] [].

End TraceWorld.

(** ** Statements in the words of the specification *)

Module SpecWords.

Definition tag_named (names : list string) (n : node) : bool :=
  match n with
  | Tag name _ _ _ => existsb (fun s => str_eqb name (lit s)) names
  | _ => false
  end.

(** The text of the first tag below [block], in document order, whose
    name is one of [names]; empty when there is none. *)
Definition first_text (names : list string) (block : node) : str :=
  match find (tag_named names) (map snd (descendants block)) with
  | Some h => get_text_strip h
  | None => []
  end.

(** The title as the specification words it: the first heading of any
    level. *)
Definition heading_title (block : node) : str :=
  first_text ["h1"; "h2"; "h3"; "h4"; "h5"; "h6"]%string block.

(** [s] begins with ["by "], letter case apart. *)
Definition begins_with_by (s : str) : bool :=
  match s with
  | b :: y :: sp :: _ =>
      (Ascii.eqb b "b" || Ascii.eqb b "B")
      && (Ascii.eqb y "y" || Ascii.eqb y "Y")
      && Ascii.eqb sp " "
  | _ => false
  end.

(** The author as the specification words it: exactly the prefix is
    taken off. *)
Definition author_prefix_stripped (s : str) : str :=
  if begins_with_by s then skipn 3 s else s.

(** De-duplication that keeps the first occurrence of each element. *)
Fixpoint keep_first (l : list str) : list str :=
  match l with
  | [] => []
  | x :: t => x :: filter (fun y => negb (str_eqb y x)) (keep_first t)
  end.

(** The position of the first occurrence of [x] in [l]. *)
Fixpoint index_of (x : str) (l : list str) : nat :=
  match l with
  | [] => 0
  | y :: t => if str_eqb y x then 0 else S (index_of x t)
  end.

End SpecWords.
Import SpecWords.

(** ** Notions used in the statements and the proofs *)

Unset Implicit Arguments.

(** [s] is empty or begins with a character that satisfies [p]. *)
Definition headed (p : ascii -> bool) (s : str) : bool :=
  match s with [] => true | c :: _ => p c end.

Definition is_safe (c : ascii) : bool := negb (is_unsafe c).
Definition not_c0 (c : ascii) : bool := negb (is_c0_or_space c).
Definition not_delim (c : ascii) : bool := negb (is_netloc_delim c).
Definition is_slash (c : ascii) : bool := Ascii.eqb c "/".

(** A scheme as [urlsplit] returns it: an ASCII letter first, scheme
    characters only, in lower case. *)
Definition valid_scheme (s : str) : bool :=
  match s with
  | [] => false
  | c :: _ =>
      is_ascii_alpha c && forallb is_scheme_char s && str_eqb (lower s) s
  end.

(** The text before the first [c] of [s], all of [s] when there is
    none. *)
Definition cut (c : ascii) (s : str) : str :=
  match partition c s with
  | Some (a, _) => a
  | None => s
  end.

(** The cut of [_splitparams] in the last segment [seg] of a path that
    begins with [prefix]. *)
Definition cut_params (prefix seg : str) : str * str :=
  match partition ";" seg with
  | Some (x, y) => (prefix ++ x, y)
  | None => (prefix ++ seg, [])
  end.

(** [urlparse] cuts the parameters off the path of some schemes;
    [urlunparse] puts them back when they are not empty. *)
Definition param_split (sch X : str) : str * str :=
  if in_list sch uses_params && mem ";" X then splitparams X else (X, []).

Definition param_join (ab : str * str) : str :=
  if truthy (snd ab) then fst ab ++ lit ";" ++ snd ab else fst ab.

(** The path as the normalizer returns it. *)
Definition canon_params (sch X : str) : str :=
  param_join (param_split sch X).

(** A path in which the last segment has nothing after its first
    semicolon. *)
Definition lone_semicolon (X : str) : bool :=
  match partition ";" (after_last "/" X) with
  | Some (_, []) => true
  | _ => false
  end.

(** The text [urlsplit] works on: the URL without its leading control
    characters and spaces and without tabs and line breaks. *)
Definition cleaned (u : str) : str :=
  remove_unsafe (lstrip_by is_c0_or_space u).

(** The network location of [urlsplit] and what follows it. *)
Definition netloc_split (url : str) : str * str :=
  if startswith (lit "//") url then splitnetloc2 url else ([], url).

(** The text [urlunsplit] puts after the scheme when the query and the
    fragment are empty. *)
Definition unsplit_body (sch nl X : str) : str :=
  if truthy nl
     || (truthy sch && in_list sch uses_netloc
         && negb (startswith (lit "//") X))
  then lit "//" ++ nl
       ++ (if truthy X && negb (startswith (lit "/") X)
           then lit "/" ++ X else X)
  else X.

Definition with_scheme (sch B : str) : str :=
  if truthy sch then sch ++ lit ":" ++ B else B.

(** What [urlsplit] guarantees of the scheme, the network location and
    the normalized path it returns. *)
Record clean {NC : NetlocChecks} (sch nl X : str) : Prop := {
  cl_scheme : sch = [] \/ valid_scheme sch = true;
  cl_netloc : forallb not_delim nl = true;
  cl_brackets : brackets_ok nl = true;
  cl_check : checknetloc nl = true;
  cl_hash : mem "#" X = false;
  cl_query : mem "?" X = false;
  cl_safe_nl : forallb is_safe nl = true;
  cl_safe_X : forallb is_safe X = true;
  cl_abs : truthy nl = true -> headed is_slash X = true;
  cl_bare : sch = [] -> nl = [] ->
            headed not_c0 X = true /\ split_scheme [] X = ([], X);
  cl_params : canon_params sch X = X
}.

(** An absolute URL by its parts, in the words of the specification. *)
Record AbsoluteUrl : Type := mkUrl {
  au_scheme : str;
  au_netloc : str;
  au_path : str;
  au_query : option str;
  au_fragment : option str
}.

Definition opt_part (mark : ascii) (o : option str) : str :=
  match o with
  | Some s => mark :: s
  | None => []
  end.

(** [scheme://netloc path ?query #fragment] *)
Definition render (c : AbsoluteUrl) : str :=
  au_scheme c ++ lit "://" ++ au_netloc c ++ au_path c
  ++ opt_part "?" (au_query c) ++ opt_part "#" (au_fragment c).

Definition opt_all (p : ascii -> bool) (o : option str) : bool :=
  match o with
  | Some s => forallb p s
  | None => true
  end.

(** The URL without its query and its fragment. *)
Definition without_query_fragment (c : AbsoluteUrl) : AbsoluteUrl :=
  mkUrl (au_scheme c) (au_netloc c) (au_path c) None None.

Definition with_lower_scheme (c : AbsoluteUrl) : AbsoluteUrl :=
  mkUrl (lower (au_scheme c)) (au_netloc c) (au_path c)
        (au_query c) (au_fragment c).

(** A well-formed absolute URL: a scheme of scheme characters that begins
    with a letter; a network location that is not empty, holds none of
    [/ ? #] and passes the checks of the library; a path that is empty
    or begins with a slash and holds neither [?] nor [#]; a query
    without [#]; no tab or line break anywhere. *)
Definition well_formed {NC : NetlocChecks} (c : AbsoluteUrl) : bool :=
  truthy (au_scheme c) && headed is_ascii_alpha (au_scheme c)
  && forallb is_scheme_char (au_scheme c)
  && truthy (au_netloc c) && forallb not_delim (au_netloc c)
  && forallb is_safe (au_netloc c)
  && brackets_ok (au_netloc c) && checknetloc (au_netloc c)
  && headed is_slash (au_path c)
  && negb (mem "#" (au_path c)) && negb (mem "?" (au_path c))
  && forallb is_safe (au_path c)
  && opt_all (fun x => negb (Ascii.eqb "#" x)) (au_query c)
  && opt_all is_safe (au_query c)
  && opt_all is_safe (au_fragment c).

(** The network location or the path is such that normalizing a second
    time changes nothing: the network location is not empty, or the path
    does not begin with two slashes. *)
Definition settled (p : ParseResult) : bool :=
  truthy (netloc p) || negb (startswith (lit "//") (path p)).

(** The values of the non-empty [href] attributes of the anchors, in the
    order of the anchors. *)
Definition linked_hrefs (links : list node) : list str :=
  flat_map (fun a => match attr (lit "href") a with
                     | Some (c :: h) => [c :: h]
                     | _ => []
                     end) links.

(** Every link resolved against the base and normalized, in order; the
    first call that raises ends the extraction. *)
Fixpoint resolve_all {NC : NetlocChecks} (base : str) (hrefs : list str)
  : result (list str) :=
  match hrefs with
  | [] => Ok []
  | h :: rest =>
      rbind (rbind (urljoin base h) normalize_url) (fun u =>
      rbind (resolve_all base rest) (fun us => Ok (u :: us)))
  end.

(** The reviews of the pages of [todo] up to the first page without
    reviews. *)
Fixpoint reviews_until (reviews_of : Z -> list review) (todo : list Z)
  : list review :=
  match todo with
  | [] => []
  | k :: rest =>
      match reviews_of k with
      | [] => []
      | rs => rs ++ reviews_until reviews_of rest
      end
  end.

(** The category crawler run on each key in turn, the rows of the runs
    concatenated in that order. *)
Fixpoint crawl_each {E : Env} {NC : NetlocChecks} {HP : HtmlParser}
  (keys : list str) (category_pages review_pages : Z)
  (delay : Delay) : M (list row) :=
  match keys with
  | [] => ret []
  | key :: rest =>
      rows <- scrape_category key category_pages review_pages delay ;;
      more <- crawl_each rest category_pages review_pages delay ;;
      ret (rows ++ more)
  end.


(** White space at neither end. *)
Definition not_space (c : ascii) : bool := negb (isspace c).

Definition trimmed (s : str) : bool :=
  headed not_space s && headed not_space (rev s).


(** Neither a question mark nor a hash. *)
Definition no_mark (c : ascii) : bool :=
  negb (Ascii.eqb c "?" || Ascii.eqb c "#").

(** A question mark or a hash. *)
Definition is_mark (c : ascii) : bool := Ascii.eqb c "?" || Ascii.eqb c "#".


(** The normalizer in stages: the cleaned text, the scheme, the network
    location with its checks, the path. *)
Definition normalize_staged {NC : NetlocChecks} (u : str) : result str :=
  let '(sch, u2) := split_scheme [] (cleaned u) in
  let '(nl, u3) := netloc_split u2 in
  if negb (brackets_ok nl) then Raise ValueError
  else if negb (checknetloc nl) then Raise ValueError
  else Ok (urlunsplit sch nl
             (canon_params sch (cut "?" (cut "#" u3))) [] []).


(** The row has a title or a body. *)
Definition row_has_text (r : row) : bool :=
  truthy (row_title r) || truthy (row_body r).


Definition review_has_text (r : review) : bool :=
  truthy (title r) || truthy (body r).


(** The row is tagged with [key] and has a title or a body. *)
Definition row_ok (key : str) (r : row) : Prop :=
  row_category r = key /\ row_has_text r = true.


(** An event of a run of the review crawler on [base] with the page
    limit [pages]: a request for [base] with a page number of
    [1..pages], or a sleep of the given delay. *)
Definition review_event (base : str) (pages delay : Z) (ev : TraceWorld.event) : Prop :=
  match ev with
  | TraceWorld.Get u p =>
      u = base /\ exists k, p = [(lit "page", k)] /\ (1 <= k <= pages)%Z
  | TraceWorld.Sleep d => d = delay
  end.

Definition is_get (ev : TraceWorld.event) : bool :=
  match ev with TraceWorld.Get _ _ => true | TraceWorld.Sleep _ => false end.

(** The events are none, or the last of them is a request. *)
Definition ends_with_get (t : list TraceWorld.event) : Prop :=
  t = [] \/ exists t' u p, t = t' ++ [TraceWorld.Get u p].


(** The crawl [main] runs for its arguments. *)
Definition crawl {E : Env} {NC : NetlocChecks} {HP : HtmlParser}
  (args : Args) : M (list row) :=
  scrape_multiple_categories (arg_categories args)
    (arg_category_pages args) (arg_review_pages args) (arg_delay args).

(** ** Closed examples *)

Module Examples.
Import TraceWorld.

Definition block_with_h3 : node :=
  el "article" ["review"%string]
    [el "h3" [] [Text (lit " Solid phone ")];
     el "p" [] [Text (lit "Battery lasts two days.")]].

Definition block_with_h2 : node :=
  el "article" ["review"%string]
    [el "h2" [] [Text (lit "Great")];
     el "p" [] [Text (lit "Works well.")]].

Definition meta_block (author_text : string) : node :=
  el "article" ["review"%string]
    [el "h3" [] [Text (lit "Solid phone")];
     el "div" ["-df"; "-j-bet"; "-i-ctr"; "-gy5"]%string
       [el "span" [] [Text (lit "12-03-2024")];
        el "span" [] [Text (lit author_text)]]].

Definition meta_of (author_text : string) : node :=
  el "div" ["-df"; "-j-bet"; "-i-ctr"; "-gy5"]%string
    [el "span" [] [Text (lit "12-03-2024")];
     el "span" [] [Text (lit author_text)]].

Definition listing_doc : soup :=
  [el "div" ["catalog"%string]
     [anchor ["core"%string] "/product/a?ref=1";
      Tag (lit "a") [lit "core"] [] [];
      anchor ["core"%string] "/product/b";
      Tag (lit "a") [lit "core"] [(lit "href", [])] [];
      anchor ["core"%string] "/product/a#reviews"]].

Definition listing_base : str :=
  lit "https://www.konga.com/category/electronics-5261".

Definition empty_disk : FileSystem := mkFS (fun _ => None) (fun _ => true).

Definition two_rows : list row :=
  [mkRow (lit "electronics") (lit "https://www.konga.com/product/a")
         (lit "Good, really") [] (lit "Works.") (lit "Jane") (lit "12-03-2024");
   mkRow (lit "electronics") (lit "https://www.konga.com/product/b")
         (lit "Bad") (lit "1") (lit "Broke.") [] []].


(** A link with six slashes after the scheme. *)
Definition slashes_doc : soup := [anchor ["core"%string] "http://////x"].

Definition semicolon_url : AbsoluteUrl :=
  mkUrl (lit "https") (lit "x.test") (lit "/p;") (Some (lit "a=1")) None.

Definition plain_url : AbsoluteUrl :=
  mkUrl (lit "https") (lit "x.test") (lit "/p") (Some (lit "a=1"))
        (Some (lit "frag")).

End Examples.

Import Examples.

Module Shop.
Import TraceWorld.

Definition review_doc (heading text_ : string) : soup :=
  [el "article" ["review"%string]
      [el "h3" [] [Text (lit heading)]; el "p" [] [Text (lit text_)]]].

Definition listing : soup :=
  [el "div" ["catalog"%string]
      [anchor ["core"%string] "/product/a?ref=1";
       anchor ["core"%string] "/product/b"]].

(** The documents of the shop by their text. *)
Definition parser : HtmlParser :=
  table_parser
    [(lit "listing", listing);
     (lit "a1", review_doc "Good" "Works.");
     (lit "a2", review_doc "Fine" "Still works.");
     (lit "b1", review_doc "Bad" "Broke.")].

Definition electronics : str :=
  lit "https://www.konga.com/category/electronics-5261".
Definition product_a : str := lit "https://www.konga.com/product/a".
Definition product_b : str := lit "https://www.konga.com/product/b".

(** Product [a] has two pages of reviews, product [b] has one; the
    category has one listing page. *)
Definition page_of (url : str) (k : Z) : string :=
  if str_eqb url electronics then
    if (k =? 1)%Z then "listing" else "none"
  else if str_eqb url product_a then
    if (k =? 1)%Z then "a1" else if (k =? 2)%Z then "a2" else "none"
  else if str_eqb url product_b then
    if (k =? 1)%Z then "b1" else "none"
  else "none".

Definition shop : site :=
  fun url params =>
    match params with
    | [(_, k)] => page_ok (page_of url k)
    | _ => Raise RequestException
    end.

Definition env : Env := trace_env shop.

Definition good : review := mkReview (lit "Good") [] (lit "Works.") [] [].
Definition fine : review :=
  mkReview (lit "Fine") [] (lit "Still works.") [] [].
Definition bad : review := mkReview (lit "Bad") [] (lit "Broke.") [] [].

End Shop.

Module Outage.
Import TraceWorld.

(** The shop of [Shop] when the second page of the reviews of product
    [a] answers with the status 500. *)
Definition outage : site :=
  fun url params =>
    match params with
    | [(_, k)] =>
        if str_eqb url Shop.product_a && (k =? 2)%Z
        then Ok (mkResponse 500 [])
        else page_ok (Shop.page_of url k)
    | _ => Raise RequestException
    end.

Definition env : Env := trace_env outage.

(** A listing with a link that has an opening bracket and no closing
    one. *)
Definition broken_link_doc : soup :=
  [anchor ["core"%string] "/product/a"; anchor ["core"%string] "http://[x"].

Definition spaced_doc : soup :=
  [el "article" ["review"%string]
      [el "h3" [] [Text (lit "  Solid  phone ")];
       el "p" [] [Text (lit " Battery lasts "); el "b" [] [Text (lit " two days. ")]];
       el "div" ["stars"%string] [Text (lit " 4.5 out of 5 ")];
       el "div" ["-df"; "-j-bet"; "-i-ctr"; "-gy5"]%string
         [el "span" [] [Text (lit " 12-03-2024 ")];
          el "span" [] [Text (lit "by   Jane Doe ")]]]].

Definition spaced_review : review :=
  mkReview (lit "Solid  phone") (lit "4.5") (lit "Battery laststwo days.")
           (lit "Jane Doe") (lit "12-03-2024").

Definition shop_args : @Args Shop.env :=
  @mkArgs Shop.env [lit "toys"; lit "electronics"] 1%Z 1%Z
          (lit "jumia_reviews.csv") 1%Z.

Definition typo_args : @Args Shop.env :=
  @mkArgs Shop.env [lit "toys"; lit "garden"] 1%Z 1%Z
          (lit "jumia_reviews.csv") 1%Z.

Definition outage_args : @Args env :=
  @mkArgs env [lit "garden"; lit "Electronics"] 3%Z 2%Z (lit "out.csv") 1%Z.

End Outage.


(** * Properties *)

(** ** Strings *)

Lemma str_eqb_eq (a b : str) : str_eqb a b = true <-> a = b.
Proof.
  unfold str_eqb. destruct (list_eq_dec ascii_dec a b); split; congruence.
Qed.

Lemma str_eqb_refl (a : str) : str_eqb a a = true.
Proof. now apply str_eqb_eq. Qed.

Lemma str_eqb_neq (a b : str) : str_eqb a b = false <-> a <> b.
Proof.
  unfold str_eqb. destruct (list_eq_dec ascii_dec a b); split; congruence.
Qed.

Ltac by_char c := destruct c as [[] [] [] [] [] [] [] []]; vm_compute; reflexivity.

Lemma lower_char_b (c : ascii) :
  Ascii.eqb "b" (lower_char c) = Ascii.eqb c "b" || Ascii.eqb c "B".
Proof. by_char c. Qed.

Lemma lower_char_y (c : ascii) :
  Ascii.eqb "y" (lower_char c) = Ascii.eqb c "y" || Ascii.eqb c "Y".
Proof. by_char c. Qed.

Lemma lower_char_space (c : ascii) :
  Ascii.eqb " " (lower_char c) = Ascii.eqb c " ".
Proof. by_char c. Qed.

Lemma startswith_by_lower (s : str) :
  startswith (lit "by ") (lower s) = begins_with_by s.
Proof.
  destruct s as [|b [|y [|sp r]]]; try reflexivity.
  - unfold lit; cbn [lower map list_ascii_of_string startswith begins_with_by].
    now rewrite andb_false_r.
  - unfold lit; cbn [lower map list_ascii_of_string startswith begins_with_by].
    now rewrite !andb_false_r.
  - unfold lit; cbn [lower map list_ascii_of_string startswith begins_with_by].
    now rewrite lower_char_b, lower_char_y, lower_char_space, andb_true_r,
      andb_assoc.
Qed.

(** ** The review extractor *)

Lemma str_eqb_sym (a b : str) : str_eqb a b = str_eqb b a.
Proof.
  destruct (str_eqb b a) eqn:H.
  - apply str_eqb_eq in H. subst. apply str_eqb_refl.
  - apply str_eqb_neq in H. apply str_eqb_neq. congruence.
Qed.

Lemma hd_error_filter {A B} (f : A -> B) (p : A -> bool) (q : B -> bool)
  (l : list A) :
  (forall a, p a = q (f a)) ->
  hd_error (map f (filter p l)) = find q (map f l).
Proof.
  intro H. induction l as [|a l IH]; simpl; [reflexivity|].
  rewrite H. destruct (q (f a)); simpl; auto.
Qed.

Lemma chain_matches_nil (anc : list node) : chain_matches [] anc = true.
Proof. now destruct anc. Qed.

(** A selector made of one tag name matches the tags of that name,
    whatever their ancestors. *)
Lemma matches_tag (t : string) (e : list node * node) :
  matches [simple (tag_ t)] e = tag_named [t] (snd e).
Proof.
  destruct e as [anc n]. unfold matches, matches_complex. simpl.
  rewrite chain_matches_nil.
  destruct n; simpl; try reflexivity.
  now rewrite !andb_true_r, !orb_false_r, str_eqb_sym.
Qed.

Lemma select_one_tag (t : string) (n : node) :
  select_one [simple (tag_ t)] n
  = find (tag_named [t]) (map snd (descendants n)).
Proof.
  unfold select_one, select_in. apply hd_error_filter. apply matches_tag.
Qed.

Lemma block_title_h3 (block : node) :
  block_title block = first_text ["h3"%string] block.
Proof.
  unfold block_title, first_text, sel_h3. now rewrite select_one_tag.
Qed.

Lemma block_review_fields (block : node) (r : review) :
  block_review block = Some r ->
  title r = block_title block /\ body r = block_body block
  /\ rating r = block_rating block
  /\ date r = fst (block_meta block) /\ author r = snd (block_meta block).
Proof.
  unfold block_review. destruct (block_meta block) as [d a].
  destruct (negb (truthy (block_body block)) && negb (truthy (block_title block)));
    [discriminate|].
  intros [= <-]. simpl. auto.
Qed.

(** C3, as amended: the title of the record extracted from a block is the
    text of the first [h3] tag below the block, in document order, and is
    empty when the block has no [h3] tag below it. *)
Theorem title_is_first_h3 (block : node) (r : review) :
  block_review block = Some r ->
  title r = first_text ["h3"%string] block
  /\ (find (tag_named ["h3"%string]) (map snd (descendants block)) = None ->
      title r = []).
Proof.
  intro H. apply block_review_fields in H. destruct H as [-> _].
  rewrite block_title_h3. split; [reflexivity|].
  unfold first_text. now intros ->.
Qed.

Lemma title_is_first_h3_witness :
  block_review block_with_h3
  = Some (mkReview (lit "Solid phone") [] (lit "Battery lasts two days.")
                   [] [])
  /\ lit "Solid phone" = first_text ["h3"%string] block_with_h3.
Proof.
  split; [reflexivity|].
  exact (proj1 (title_is_first_h3 block_with_h3
                  (mkReview (lit "Solid phone") []
                            (lit "Battery lasts two days.") [] [])
                  eq_refl)).
Defined.

(** C3, the claim as stated fails: a block whose only heading is an [h2]
    has a first heading with the text [Great], and the record extracted
    from it has an empty title. *)
Lemma title_any_heading_fails :
  review_blocks [block_with_h2] = [block_with_h2]
  /\ heading_title block_with_h2 = lit "Great"
  /\ parse_reviews_soup [block_with_h2]
     = [mkReview [] [] (lit "Works well.") [] []]
  /\ ~ (forall block r, block_review block = Some r ->
                        title r = heading_title block).
Proof.
  split; [reflexivity|]. split; [reflexivity|]. split; [reflexivity|].
  intro H.
  specialize (H block_with_h2 (mkReview [] [] (lit "Works well.") [] [])
                eq_refl).
  discriminate H.
Qed.

Lemma author_of_text_examples :
  author_of_text (lit "By Jane Doe") = lit "Jane Doe"
  /\ author_of_text (lit "Jane Doe") = lit "Jane Doe".
Proof. split; reflexivity. Qed.

Lemma author_of_text_spec (s : str) :
  author_of_text s = if begins_with_by s then strip (skipn 3 s) else s.
Proof. unfold author_of_text. now rewrite startswith_by_lower. Qed.

Lemma block_meta_author (block meta_div sp : node) :
  select_one sel_meta_div block = Some meta_div ->
  nth_error (select_in sel_span meta_div) 1 = Some sp ->
  snd (block_meta block) = author_of_text (get_text_strip sp).
Proof.
  intros Hm Hs. unfold block_meta. rewrite Hm, Hs. reflexivity.
Qed.

(** C4, as amended: when the metadata container of a block has a second
    span, the author of the extracted record is the text of that span
    without its first three characters and then without the white space
    at both ends if the text begins with ["by "], letter case apart, and
    is the text of the span itself otherwise. *)
Theorem author_prefix_then_strip (block meta_div sp : node) (r : review) :
  select_one sel_meta_div block = Some meta_div ->
  nth_error (select_in sel_span meta_div) 1 = Some sp ->
  block_review block = Some r ->
  author r = if begins_with_by (get_text_strip sp)
             then strip (skipn 3 (get_text_strip sp))
             else get_text_strip sp.
Proof.
  intros Hm Hs Hr. apply block_review_fields in Hr.
  destruct Hr as (_ & _ & _ & _ & ->).
  rewrite (block_meta_author block meta_div sp Hm Hs).
  apply author_of_text_spec.
Qed.

Lemma author_prefix_then_strip_witness :
  author (mkReview (lit "Solid phone") [] [] (lit "Jane Doe")
                   (lit "12-03-2024"))
  = lit "Jane Doe"
  /\ block_review (meta_block "By Jane Doe")
     = Some (mkReview (lit "Solid phone") [] [] (lit "Jane Doe")
                      (lit "12-03-2024")).
Proof.
  split; [|reflexivity].
  rewrite (author_prefix_then_strip (meta_block "By Jane Doe")
             (meta_of "By Jane Doe")
             (TraceWorld.el "span" [] [Text (lit "By Jane Doe")])
             (mkReview (lit "Solid phone") [] [] (lit "Jane Doe")
                       (lit "12-03-2024"))
             eq_refl eq_refl eq_refl).
  reflexivity.
Defined.

(** C4, the claim as stated fails: for the span text ["by  Jane Doe"],
    with two spaces, taking off exactly the prefix leaves [" Jane Doe"],
    and the extracted author is ["Jane Doe"]. *)
Lemma author_exact_prefix_fails :
  block_review (meta_block "by  Jane Doe")
  = Some (mkReview (lit "Solid phone") [] [] (lit "Jane Doe")
                   (lit "12-03-2024"))
  /\ author_prefix_stripped (lit "by  Jane Doe") = lit " Jane Doe"
  /\ ~ (forall block meta_div sp r,
          select_one sel_meta_div block = Some meta_div ->
          nth_error (select_in sel_span meta_div) 1 = Some sp ->
          block_review block = Some r ->
          author r = author_prefix_stripped (get_text_strip sp)).
Proof.
  split; [reflexivity|]. split; [reflexivity|].
  intro H.
  specialize (H (meta_block "by  Jane Doe") (meta_of "by  Jane Doe")
                (TraceWorld.el "span" [] [Text (lit "by  Jane Doe")])
                _ eq_refl eq_refl eq_refl).
  discriminate H.
Qed.

(** ** The product-link extractor *)

Lemma in_list_In (x : str) (l : list str) : in_list x l = true <-> In x l.
Proof.
  unfold in_list. rewrite existsb_exists. split.
  - intros (y & Hy & E). apply str_eqb_eq in E. now subst.
  - intro H. exists x. split; [assumption | apply str_eqb_refl].
Qed.

Lemma in_list_app (x : str) (a b : list str) :
  in_list x (a ++ b) = in_list x a || in_list x b.
Proof. unfold in_list. apply existsb_app. Qed.

Lemma filter_filter {A} (p q : A -> bool) (l : list A) :
  filter p (filter q l) = filter (fun y => q y && p y) l.
Proof.
  induction l as [|a l IH]; simpl; [reflexivity|].
  destruct (q a); simpl; [destruct (p a)|]; now rewrite IH.
Qed.

Lemma fold_fromkeys (urls keys : list str) :
  fold_left (fun keys u => if in_list u keys then keys else keys ++ [u])
            urls keys
  = keys ++ filter (fun y => negb (in_list y keys)) (keep_first urls).
Proof.
  revert keys. induction urls as [|x t IH]; intro keys; simpl.
  - now rewrite app_nil_r.
  - destruct (in_list x keys) eqn:Hx; rewrite IH; simpl.
    + f_equal. rewrite filter_filter. apply filter_ext. intro y.
      destruct (str_eqb y x) eqn:E; simpl; [|reflexivity].
      apply str_eqb_eq in E. subst. now rewrite Hx.
    + rewrite <- app_assoc. simpl. do 2 f_equal.
      rewrite filter_filter. apply filter_ext. intro y.
      rewrite in_list_app. unfold in_list at 2. simpl.
      rewrite orb_false_r, negb_orb. apply andb_comm.
Qed.

Lemma dict_fromkeys_keep_first (urls : list str) :
  dict_fromkeys urls = keep_first urls.
Proof.
  unfold dict_fromkeys. rewrite fold_fromkeys. simpl.
  induction (keep_first urls) as [|a l IH]; simpl; [reflexivity|].
  now rewrite IH.
Qed.

Lemma keep_first_In (l : list str) (u : str) :
  In u (keep_first l) <-> In u l.
Proof.
  induction l as [|x t IH]; simpl; [tauto|].
  rewrite filter_In, IH. split.
  - intros [H | [H _]]; auto.
  - intros [H | H]; auto.
    destruct (str_eqb u x) eqn:E.
    + apply str_eqb_eq in E. auto.
    + right. auto.
Qed.

Lemma keep_first_NoDup (l : list str) : NoDup (keep_first l).
Proof.
  induction l as [|x t IH]; simpl; constructor.
  - rewrite filter_In. intros [_ H]. now rewrite str_eqb_refl in H.
  - now apply NoDup_filter.
Qed.

Lemma nth_error_filter_order {A} (p : A -> bool) (l : list A) :
  forall i j a b,
    nth_error (filter p l) i = Some a ->
    nth_error (filter p l) j = Some b ->
    i < j ->
    exists i' j', i' < j' /\ nth_error l i' = Some a
                  /\ nth_error l j' = Some b.
Proof.
  induction l as [|x t IH]; intros i j a b Ha Hb Hij; simpl in *.
  - destruct i; discriminate.
  - destruct (p x).
    + destruct j as [|j]; [lia|]. destruct i as [|i]; simpl in *.
      * apply nth_error_In in Hb. apply filter_In in Hb. destruct Hb as [Hb _].
        apply In_nth_error in Hb. destruct Hb as [k Hk].
        exists 0, (S k). simpl. repeat split; auto. lia.
      * destruct (IH i j a b Ha Hb) as (i' & j' & H1 & H2 & H3); [lia|].
        exists (S i'), (S j'). simpl. repeat split; auto. lia.
    + destruct (IH i j a b Ha Hb Hij) as (i' & j' & H1 & H2 & H3).
      exists (S i'), (S j'). simpl. repeat split; auto. lia.
Qed.

Lemma keep_first_order (l : list str) :
  forall i j a b,
    nth_error (keep_first l) i = Some a ->
    nth_error (keep_first l) j = Some b ->
    i < j ->
    index_of a l < index_of b l.
Proof.
  induction l as [|x t IH]; intros i j a b Ha Hb Hij; simpl in *.
  - destruct i; discriminate.
  - destruct j as [|j]; [lia|]. simpl in Hb.
    assert (Hbx : str_eqb x b = false).
    { apply nth_error_In in Hb. apply filter_In in Hb. destruct Hb as [_ Hb].
      rewrite str_eqb_sym. now destruct (str_eqb b x). }
    rewrite Hbx. destruct i as [|i]; simpl in Ha.
    + injection Ha as <-. rewrite str_eqb_refl. lia.
    + assert (Hax : str_eqb x a = false).
      { apply nth_error_In in Ha. apply filter_In in Ha. destruct Ha as [_ Ha].
        rewrite str_eqb_sym. now destruct (str_eqb a x). }
      rewrite Hax.
      destruct (nth_error_filter_order _ _ i j a b Ha Hb)
        as (i' & j' & H1 & H2 & H3); [lia|].
      specialize (IH i' j' a b H2 H3 H1). lia.
Qed.

Lemma collect_urls_resolve_all {NC : NetlocChecks} (base : str)
  (links : list node) (urls : list str) :
  collect_urls base links urls
  = rbind (resolve_all base (linked_hrefs links))
          (fun us => Ok (urls ++ us)).
Proof.
  revert urls. induction links as [|a rest IH]; intro urls; simpl.
  - now rewrite app_nil_r.
  - destruct (attr (lit "href") a) as [[|c h]|]; simpl.
    + apply IH.
    + destruct (urljoin base (c :: h)) as [full|e]; simpl; [|reflexivity].
      destruct (normalize_url full) as [u|e]; simpl; [|reflexivity].
      rewrite IH. destruct (resolve_all base (linked_hrefs rest)); simpl;
        [|reflexivity].
      now rewrite <- app_assoc.
    + apply IH.
Qed.

Lemma parse_category_product_urls_keep_first {NC : NetlocChecks} (doc : soup)
  (base : str) :
  parse_category_product_urls_soup doc base
  = rbind (resolve_all base (linked_hrefs (product_links doc)))
          (fun urls => Ok (keep_first urls)).
Proof.
  unfold parse_category_product_urls_soup.
  rewrite collect_urls_resolve_all.
  destruct (resolve_all base (linked_hrefs (product_links doc))); simpl;
    [|reflexivity].
  now rewrite dict_fromkeys_keep_first.
Qed.

(** C7: the extractor leaves out the anchors without an [href] or with an
    empty one, resolves and normalizes the others in document order, and
    returns the normalized URLs without repetition, each at the place of
    its first occurrence: the result has no duplicates, has the same
    members as the normalized URLs, and lists them by the position of
    their first occurrence. *)
Theorem product_links_deduplicated {NC : NetlocChecks} (doc : soup)
  (base : str) :
  parse_category_product_urls_soup doc base
  = rbind (resolve_all base (linked_hrefs (product_links doc)))
          (fun urls => Ok (keep_first urls))
  /\ forall urls out,
       resolve_all base (linked_hrefs (product_links doc)) = Ok urls ->
       parse_category_product_urls_soup doc base = Ok out ->
       NoDup out
       /\ (forall u, In u out <-> In u urls)
       /\ (forall i j a b,
             nth_error out i = Some a -> nth_error out j = Some b ->
             i < j -> index_of a urls < index_of b urls).
Proof.
  split; [apply parse_category_product_urls_keep_first|].
  intros urls out Hu Ho.
  rewrite parse_category_product_urls_keep_first, Hu in Ho. simpl in Ho.
  injection Ho as <-. split; [apply keep_first_NoDup|].
  split; [apply keep_first_In | apply keep_first_order].
Qed.

Lemma product_links_deduplicated_witness :
  let NC := TraceWorld.lax_checks in
  let a := lit "https://www.konga.com/product/a" in
  let b := lit "https://www.konga.com/product/b" in
  resolve_all listing_base (linked_hrefs (product_links listing_doc))
  = Ok [a; b; a]
  /\ parse_category_product_urls_soup listing_doc listing_base = Ok [a; b]
  /\ NoDup [a; b]
  /\ (forall u, In u [a; b] <-> In u [a; b; a])
  /\ (forall i j x y,
        nth_error [a; b] i = Some x -> nth_error [a; b] j = Some y ->
        i < j -> index_of x [a; b; a] < index_of y [a; b; a]).
Proof.
  intros NC a b.
  split; [reflexivity|]. split; [reflexivity|].
  exact (proj2 (@product_links_deduplicated NC listing_doc listing_base)
               [a; b; a] [a; b] eq_refl eq_refl).
Defined.

(** ** The product review crawler *)

Section CrawlerFacts.
Context {E : Env} {NC : NetlocChecks} {HP : HtmlParser}.

Lemma review_pages_loop_result (base : str) (n : Z) (delay : Delay)
  (page_html : Z -> str) (todo : list Z) :
  (forall k w, In k todo ->
               fst (fetch_page base [(lit "page", k)] w) = Ok (page_html k)) ->
  (forall w, fst (time_sleep delay w) = Ok tt) ->
  forall acc w,
    fst (review_pages_loop base n delay todo acc w)
    = Ok (acc ++ reviews_until (fun k => parse_reviews (page_html k)) todo).
Proof.
  intros Hfetch Hsleep. induction todo as [|k rest IH]; intros acc w; simpl.
  - now rewrite app_nil_r.
  - unfold bind at 1.
    pose proof (Hfetch k w (or_introl eq_refl)) as Hk.
    destruct (fetch_page base [(lit "page", k)] w) as [[html|e] w1];
      simpl in Hk; [|discriminate].
    injection Hk as ->.
    destruct (parse_reviews (page_html k)) as [|r rs] eqn:Hp.
    + simpl. now rewrite app_nil_r.
    + unfold bind at 1.
      assert (Hs : forall b, exists w2, sleep_if b delay w1 = (Ok tt, w2)).
      { intros [|]; simpl; [|now exists w1].
        specialize (Hsleep w1). destruct (time_sleep delay w1) as [[[]|e] w2];
          simpl in Hsleep; [now exists w2 | discriminate]. }
      destruct (Hs (delay_truthy delay && (k <? n)%Z)) as [w2 ->].
      rewrite IH.
      * now rewrite <- app_assoc.
      * intros k' w' Hin. apply Hfetch. now right.
Qed.

Lemma page_range_split (n k : Z) :
  (1 <= k <= n)%Z ->
  page_range n = page_range (k - 1) ++ k :: map Z.of_nat
                   (seq (S (Z.to_nat k)) (Z.to_nat n - Z.to_nat k)).
Proof.
  intro H. unfold page_range.
  assert (Hn : Z.to_nat n
               = Z.to_nat (k - 1) + S (Z.to_nat n - Z.to_nat k)) by lia.
  rewrite Hn at 1. rewrite seq_app, map_app. f_equal.
  cbn [seq map]. f_equal; [lia|]. do 2 f_equal. lia.
Qed.

Lemma page_range_In (n k : Z) : In k (page_range n) <-> (1 <= k <= n)%Z.
Proof.
  unfold page_range. rewrite in_map_iff. split.
  - intros (i & <- & Hi). apply in_seq in Hi. lia.
  - intro H. exists (Z.to_nat k). split; [lia|]. apply in_seq. lia.
Qed.

Lemma reviews_until_stop (reviews_of : Z -> list review) (before after : list Z)
  (k : Z) :
  (forall j, In j before -> reviews_of j <> []) ->
  reviews_of k = [] ->
  reviews_until reviews_of (before ++ k :: after)
  = concat (map reviews_of before).
Proof.
  intros Hb Hk. induction before as [|j before IH]; simpl.
  - now rewrite Hk.
  - destruct (reviews_of j) eqn:Hj.
    + exfalso. apply (Hb j); [now left | assumption].
    + rewrite IH; [reflexivity|]. intros. apply Hb. now right.
Qed.

Lemma reviews_until_all (reviews_of : Z -> list review) (todo : list Z) :
  (forall j, In j todo -> reviews_of j <> []) ->
  reviews_until reviews_of todo = concat (map reviews_of todo).
Proof.
  intro H. induction todo as [|j todo IH]; simpl; [reflexivity|].
  destruct (reviews_of j) eqn:Hj.
  - exfalso. apply (H j); [now left | assumption].
  - rewrite IH; [reflexivity|]. intros. apply H. now right.
Qed.

(** C1: when every page [k] of [1..n] of the product is fetched as
    [page_html k] and the sleep does not raise, the crawler returns the
    reviews of the pages [1..k-1], in page order, for the first page [k]
    without reviews, whatever the page limit [n >= k]; and the reviews of
    all the pages [1..n] when every one of them has reviews. *)
Theorem crawl_stops_at_first_empty_page (product_url base : str) (n : Z)
  (delay : Delay) (page_html : Z -> str) (w : World) :
  (1 <= n)%Z ->
  normalize_url product_url = Ok base ->
  (forall k w', (1 <= k <= n)%Z ->
                fst (fetch_page base [(lit "page", k)] w') = Ok (page_html k)) ->
  (forall w', fst (time_sleep delay w') = Ok tt) ->
  (forall k,
     (1 <= k <= n)%Z ->
     parse_reviews (page_html k) = [] ->
     (forall j, (1 <= j < k)%Z -> parse_reviews (page_html j) <> []) ->
     fst (scrape_jumia_reviews product_url n delay w)
     = Ok (concat (map (fun j => parse_reviews (page_html j))
                       (page_range (k - 1)))))
  /\ ((forall k, (1 <= k <= n)%Z -> parse_reviews (page_html k) <> []) ->
      fst (scrape_jumia_reviews product_url n delay w)
      = Ok (concat (map (fun j => parse_reviews (page_html j))
                        (page_range n)))).
Proof.
  intros Hn Hbase Hfetch Hsleep.
  assert (Hrun : fst (scrape_jumia_reviews product_url n delay w)
                 = Ok (reviews_until (fun k => parse_reviews (page_html k))
                                     (page_range n))).
  { unfold scrape_jumia_reviews, bind, lift. rewrite Hbase.
    rewrite (review_pages_loop_result base n delay page_html); auto.
    intros k w' Hin. apply Hfetch. now apply page_range_In. }
  split.
  - intros k Hk Hempty Hbefore. rewrite Hrun. f_equal.
    rewrite (page_range_split n k Hk).
    apply reviews_until_stop; [|assumption].
    intros j Hj. apply page_range_In in Hj. apply Hbefore. lia.
  - intro Hall. rewrite Hrun. f_equal. apply reviews_until_all.
    intros j Hj. apply Hall. now apply page_range_In.
Qed.

(** ** The multi-category orchestrator *)

Lemma categories_loop_crawl_each (cats : list str) (cp rp : Z)
  (delay : Delay) :
  forall acc w,
    categories_loop cats cp rp delay acc w
    = (rows <- crawl_each (filter registered cats) cp rp delay ;;
       ret (acc ++ rows)) w.
Proof.
  induction cats as [|key rest IH]; intros acc w; simpl.
  - unfold bind, ret. now rewrite app_nil_r.
  - destruct (registered key); simpl.
    + unfold bind at 1 2 3. 
      destruct (scrape_category key cp rp delay w) as [[rows|e] w1];
        [|reflexivity].
      rewrite IH. unfold bind.
      destruct (crawl_each (filter registered rest) cp rp delay w1)
        as [[more|e] w2]; [|reflexivity].
      unfold ret. now rewrite app_assoc.
    + apply IH.
Qed.

(** C8: the orchestrator skips every key that is not in the registry,
    without raising and without touching the world, and returns the rows
    of the category crawler run on the registered keys, in the order of
    the keys. *)
Theorem unknown_keys_skipped (cats : list str) (cp rp : Z) (delay : Delay)
  (w : World) :
  scrape_multiple_categories cats cp rp delay w
  = crawl_each (filter registered cats) cp rp delay w
  /\ (forall key rest,
        registered key = false ->
        scrape_multiple_categories (key :: rest) cp rp delay w
        = scrape_multiple_categories rest cp rp delay w)
  /\ (forallb (fun key => negb (registered key)) cats = true ->
      scrape_multiple_categories cats cp rp delay w = (Ok [], w)).
Proof.
  assert (E0 : forall cs w0,
             scrape_multiple_categories cs cp rp delay w0
             = crawl_each (filter registered cs) cp rp delay w0).
  { intros cs w0. unfold scrape_multiple_categories.
    rewrite categories_loop_crawl_each. unfold bind, ret.
    destruct (crawl_each (filter registered cs) cp rp delay w0)
      as [[rows|e] w1]; reflexivity. }
  split; [apply E0|]. split.
  - intros key rest Hkey. rewrite !E0. simpl. now rewrite Hkey.
  - intro Hall. rewrite E0.
    replace (filter registered cats) with (@nil str); [reflexivity|].
    induction cats as [|key rest IH]; simpl in *; [reflexivity|].
    apply andb_true_iff in Hall. destruct Hall as [Hk Hr].
    destruct (registered key); [discriminate|]. now apply IH.
Qed.

End CrawlerFacts.

Lemma crawl_stops_at_first_empty_page_witness :
  fst (@scrape_jumia_reviews Shop.env TraceWorld.lax_checks Shop.parser
         (lit "https://www.konga.com/product/a?ref=1") 5%Z 1%Z [])
  = Ok [Shop.good; Shop.fine].
Proof.
  refine (eq_trans
            (proj1 (@crawl_stops_at_first_empty_page
                      Shop.env TraceWorld.lax_checks Shop.parser
                      (lit "https://www.konga.com/product/a?ref=1")
                      Shop.product_a 5%Z 1%Z
                      (fun k => lit (Shop.page_of Shop.product_a k)) []
                      _ _ _ _)
                   3%Z _ _ _) _).
  - lia.
  - reflexivity.
  - intros k w' _. reflexivity.
  - intros w'. reflexivity.
  - lia.
  - reflexivity.
  - intros j Hj. assert (Hc : j = 1%Z \/ j = 2%Z) by lia.
    destruct Hc as [-> | ->]; discriminate.
  - reflexivity.
Defined.

Lemma unknown_keys_skipped_witness :
  @scrape_multiple_categories Shop.env TraceWorld.lax_checks Shop.parser
     [lit "toys"; lit "garden"] 1%Z 1%Z 1%Z []
  = (Ok [], []).
Proof.
  apply (proj2 (proj2 (@unknown_keys_skipped
                         Shop.env TraceWorld.lax_checks Shop.parser
                         [lit "toys"; lit "garden"] 1%Z 1%Z 1%Z []))).
  reflexivity.
Defined.

(** ** The category crawler *)

(** C2, the code at a failing input: with one category page to visit and
    a truthy delay, the crawler fetches the listing page and the first
    review page of its two products, and then sleeps although no
    category page remains.  The review crawler, on its only page, does
    not sleep. *)
Theorem category_sleep_after_last_page :
  @scrape_category Shop.env TraceWorld.lax_checks Shop.parser
     (lit "electronics") 1%Z 1%Z 1%Z []
  = (Ok [tag_review (lit "electronics") Shop.product_a Shop.good;
         tag_review (lit "electronics") Shop.product_b Shop.bad],
     [TraceWorld.Get Shop.electronics [(lit "page", 1%Z)];
      TraceWorld.Get Shop.product_a [(lit "page", 1%Z)];
      TraceWorld.Get Shop.product_b [(lit "page", 1%Z)];
      TraceWorld.Sleep 1])
  /\ @scrape_jumia_reviews Shop.env TraceWorld.lax_checks Shop.parser
       Shop.product_a 1%Z 1%Z []
     = (Ok [Shop.good], [TraceWorld.Get Shop.product_a [(lit "page", 1%Z)]]).
Proof. split; vm_compute; reflexivity. Qed.

(** ** The tabular writer *)

Lemma str_eqb_false (a b : str) : a <> b -> str_eqb a b = false.
Proof. apply str_eqb_neq. Qed.

Lemma files_write_same (filename data : str) (fs : FileSystem) (old : str) :
  files fs filename = Some old ->
  files (write filename data fs) filename = Some (old ++ data).
Proof.
  intro H. unfold write. rewrite H. simpl. now rewrite str_eqb_refl.
Qed.

Lemma files_write_other (filename data p : str) (fs : FileSystem) :
  p <> filename -> files (write filename data fs) p = files fs p.
Proof.
  intro H. unfold write.
  destruct (files fs filename); simpl; now rewrite (str_eqb_false _ _ H).
Qed.

Lemma files_writerows_same (filename : str) (reviews : list row) :
  forall fs old,
    files fs filename = Some old ->
    files (writerows filename reviews fs) filename
    = Some (old ++ concat (map (fun r => Csv.row_text (row_fields r)) reviews)).
Proof.
  induction reviews as [|r rest IH]; intros fs old H; simpl.
  - now rewrite app_nil_r.
  - rewrite (IH _ (old ++ Csv.row_text (row_fields r))).
    + now rewrite <- app_assoc.
    + now apply files_write_same.
Qed.

Lemma files_writerows_other (filename p : str) (reviews : list row) :
  p <> filename ->
  forall fs, files (writerows filename reviews fs) p = files fs p.
Proof.
  intro H. induction reviews as [|r rest IH]; intro fs; simpl;
    [reflexivity|].
  rewrite IH. now apply files_write_other.
Qed.

(** C9: for an empty sequence of records the writer returns without
    touching the file system.  For a sequence that is not empty, and a
    path that can be opened for writing, the file holds, after the call,
    the header row [category, product_url, title, rating, body, author,
    date] followed by the rows of the records in the order of the
    sequence, and no other file has changed. *)
Theorem writer_rows (reviews : list row) (filename : str)
  (fs : FileSystem) :
  save_reviews_to_csv [] filename fs = (Ok tt, fs)
  /\ fieldnames
     = [lit "category"; lit "product_url"; lit "title"; lit "rating";
        lit "body"; lit "author"; lit "date"]
  /\ (reviews <> [] ->
      writable fs filename = true ->
      fst (save_reviews_to_csv reviews filename fs) = Ok tt
      /\ files (snd (save_reviews_to_csv reviews filename fs)) filename
         = Some (Csv.row_text fieldnames
                 ++ concat (map (fun r => Csv.row_text (row_fields r))
                                reviews))
      /\ (forall p, p <> filename ->
            files (snd (save_reviews_to_csv reviews filename fs)) p
            = files fs p)).
Proof.
  split; [reflexivity|]. split; [reflexivity|].
  intros Hne Hw. destruct reviews as [|r rest]; [congruence|].
  unfold save_reviews_to_csv, open_w. rewrite Hw.
  cbn [fst snd]. split; [reflexivity|]. split.
  - apply files_writerows_same.
    rewrite (files_write_same _ _ _ []); [reflexivity|].
    simpl. now rewrite str_eqb_refl.
  - intros p Hp. rewrite files_writerows_other by assumption.
    rewrite files_write_other by assumption.
    simpl. now rewrite (str_eqb_false _ _ Hp).
Qed.

Lemma writer_rows_witness :
  files (snd (save_reviews_to_csv two_rows (lit "jumia_reviews.csv")
                                  empty_disk))
        (lit "jumia_reviews.csv")
  = Some (lit "category,product_url,title,rating,body,author,date"
          ++ [Csv.cr; Csv.lf]
          ++ lit "electronics,https://www.konga.com/product/a,"
          ++ [Csv.dquote] ++ lit "Good, really" ++ [Csv.dquote]
          ++ lit ",,Works.,Jane,12-03-2024" ++ [Csv.cr; Csv.lf]
          ++ lit "electronics,https://www.konga.com/product/b,Bad,1,Broke.,,"
          ++ [Csv.cr; Csv.lf]).
Proof.
  refine (eq_trans
            (proj1 (proj2 (proj2 (proj2 (writer_rows two_rows
                                           (lit "jumia_reviews.csv")
                                           empty_disk)) _ _))) _).
  - discriminate.
  - reflexivity.
  - reflexivity.
Defined.


(** ** The URL normalizer *)

(** ** Strings: membership, cutting and filtering *)
Lemma mem_app (c : ascii) (a b : str) : mem c (a ++ b) = mem c a || mem c b.
Proof. apply existsb_app. Qed.

Lemma mem_cons (c x : ascii) (s : str) :
  mem c (x :: s) = Ascii.eqb c x || mem c s.
Proof. reflexivity. Qed.

Lemma partition_none (c : ascii) (s : str) :
  mem c s = false -> partition c s = None.
Proof.
  induction s as [|x t IH]; simpl; [reflexivity|].
  rewrite Ascii.eqb_sym. destruct (Ascii.eqb x c); simpl; [discriminate|].
  intro H. now rewrite IH.
Qed.

Lemma partition_app (c : ascii) (a b : str) :
  mem c a = false -> partition c (a ++ c :: b) = Some (a, b).
Proof.
  induction a as [|x t IH]; simpl.
  - now rewrite Ascii.eqb_refl.
  - rewrite Ascii.eqb_sym. destruct (Ascii.eqb x c); simpl; [discriminate|].
    intro H. now rewrite IH.
Qed.

Lemma partition_inv (c : ascii) (s a b : str) :
  partition c s = Some (a, b) -> s = a ++ c :: b /\ mem c a = false.
Proof.
  revert a. induction s as [|x t IH]; intro a; simpl; [discriminate|].
  destruct (Ascii.eqb x c) eqn:E.
  - apply Ascii.eqb_eq in E. subst. intros [= <- <-]. auto.
  - destruct (partition c t) as [[a' b']|]; [|discriminate].
    intros [= <- <-]. destruct (IH a' eq_refl) as [-> H].
    simpl. rewrite Ascii.eqb_sym, E. auto.
Qed.

Lemma partition_none_inv (c : ascii) (s : str) :
  partition c s = None -> mem c s = false.
Proof.
  induction s as [|x t IH]; simpl; [reflexivity|].
  rewrite (Ascii.eqb_sym c x).
  destruct (Ascii.eqb x c); [discriminate|].
  destruct (partition c t) as [[a b]|]; [discriminate|]. auto.
Qed.

Lemma take_drop_while (p : ascii -> bool) (s : str) :
  take_while p s ++ drop_while p s = s.
Proof.
  induction s as [|x t IH]; simpl; [reflexivity|].
  destruct (p x); simpl; [now rewrite IH | reflexivity].
Qed.

Lemma take_while_all (p : ascii -> bool) (s : str) :
  forallb p (take_while p s) = true.
Proof.
  induction s as [|x t IH]; simpl; [reflexivity|].
  destruct (p x) eqn:E; simpl; [now rewrite E | reflexivity].
Qed.

Lemma drop_while_headed (p : ascii -> bool) (s : str) :
  headed (fun c => negb (p c)) (drop_while p s) = true.
Proof.
  induction s as [|x t IH]; simpl; [reflexivity|].
  destruct (p x) eqn:E; simpl; [assumption | now rewrite E].
Qed.

Lemma take_while_app (p : ascii -> bool) (a b : str) :
  forallb p a = true -> headed (fun c => negb (p c)) b = true ->
  take_while p (a ++ b) = a.
Proof.
  intros Ha Hb. induction a as [|x t IH]; simpl in *.
  - destruct b as [|c b]; simpl in *; [reflexivity|].
    now destruct (p c).
  - apply andb_true_iff in Ha. destruct Ha as [-> Ht]. now rewrite IH.
Qed.

Lemma drop_while_app (p : ascii -> bool) (a b : str) :
  forallb p a = true -> headed (fun c => negb (p c)) b = true ->
  drop_while p (a ++ b) = b.
Proof.
  intros Ha Hb. induction a as [|x t IH]; simpl in *.
  - destruct b as [|c b]; simpl in *; [reflexivity|].
    now destruct (p c).
  - apply andb_true_iff in Ha. destruct Ha as [-> Ht]. now rewrite IH.
Qed.

Lemma filter_id {A} (p : A -> bool) (l : list A) :
  forallb p l = true -> filter p l = l.
Proof.
  induction l as [|x t IH]; simpl; [reflexivity|].
  intro H. apply andb_true_iff in H. destruct H as [-> Ht]. now rewrite IH.
Qed.

Lemma forallb_filter_same {A} (p : A -> bool) (l : list A) :
  forallb p (filter p l) = true.
Proof.
  induction l as [|x t IH]; simpl; [reflexivity|].
  destruct (p x) eqn:E; simpl; [now rewrite E | assumption].
Qed.

Lemma forallb_take_while (q p : ascii -> bool) (s : str) :
  forallb q s = true -> forallb q (take_while p s) = true.
Proof.
  induction s as [|x t IH]; simpl; [reflexivity|].
  intro H. apply andb_true_iff in H. destruct H as [Hx Ht].
  destruct (p x); simpl; [now rewrite Hx, IH | reflexivity].
Qed.

Lemma forallb_drop_while (q p : ascii -> bool) (s : str) :
  forallb q s = true -> forallb q (drop_while p s) = true.
Proof.
  induction s as [|x t IH]; simpl; [reflexivity|].
  intro H. destruct (p x); [|exact H].
  apply andb_true_iff in H. now apply IH.
Qed.

Lemma forallb_skipn {A} (q : A -> bool) (n : nat) (s : list A) :
  forallb q s = true -> forallb q (skipn n s) = true.
Proof.
  revert s. induction n as [|n IH]; intros [|x t]; simpl; auto.
  intro H. apply andb_true_iff in H. now apply IH.
Qed.

Lemma mem_false_forallb (c : ascii) (s : str) :
  mem c s = false <-> forallb (fun x => negb (Ascii.eqb c x)) s = true.
Proof.
  induction s as [|x t IH]; simpl; [tauto|].
  rewrite orb_false_iff, andb_true_iff, IH, negb_true_iff. tauto.
Qed.

Lemma mem_false_weaken (c : ascii) (p : ascii -> bool) (s : str) :
  p c = false -> forallb p s = true -> mem c s = false.
Proof.
  intros Hc H. induction s as [|x t IH]; simpl in *; [reflexivity|].
  apply andb_true_iff in H. destruct H as [Hx Ht].
  rewrite IH by assumption. rewrite orb_false_r.
  destruct (Ascii.eqb c x) eqn:E; [|reflexivity].
  apply Ascii.eqb_eq in E. congruence.
Qed.

(** ** Characters of a URL *)
Ltac all_chars c :=
  destruct c as [[] [] [] [] [] [] [] []]; vm_compute; try reflexivity;
  try discriminate; auto.

Lemma scheme_char_lower (c : ascii) :
  is_scheme_char c = true -> is_scheme_char (lower_char c) = true.
Proof. all_chars c. Qed.

Lemma alpha_lower (c : ascii) :
  is_ascii_alpha c = true -> is_ascii_alpha (lower_char c) = true.
Proof. all_chars c. Qed.

Lemma lower_char_idem (c : ascii) : lower_char (lower_char c) = lower_char c.
Proof. all_chars c. Qed.

Lemma scheme_char_plain (c : ascii) :
  is_scheme_char c = true ->
  Ascii.eqb ":" c = false /\ is_safe c = true /\ not_c0 c = true.
Proof. all_chars c. Qed.

Lemma alpha_not_slash (c : ascii) :
  is_ascii_alpha c = true -> Ascii.eqb "/" c = false.
Proof. all_chars c. Qed.

Lemma not_c0_safe (c : ascii) : not_c0 c = true -> is_safe c = true.
Proof. all_chars c. Qed.

Lemma slash_props (c : ascii) :
  is_slash c = true ->
  is_ascii_alpha c = false /\ not_c0 c = true /\ not_delim c = false.
Proof. all_chars c. Qed.

Lemma lower_idem (s : str) : lower (lower s) = lower s.
Proof.
  unfold lower. rewrite map_map. apply map_ext. apply lower_char_idem.
Qed.

Lemma forallb_impl {A} (p q : A -> bool) (l : list A) :
  (forall x, p x = true -> q x = true) ->
  forallb p l = true -> forallb q l = true.
Proof.
  intros H. induction l as [|x t IH]; simpl; [reflexivity|].
  intro Hl. apply andb_true_iff in Hl. destruct Hl as [Hx Ht].
  now rewrite (H _ Hx), IH.
Qed.

Lemma valid_scheme_props (s : str) :
  valid_scheme s = true ->
  truthy s = true /\ headed is_ascii_alpha s = true
  /\ forallb is_scheme_char s = true /\ lower s = s
  /\ mem ":" s = false /\ forallb is_safe s = true
  /\ headed not_c0 s = true.
Proof.
  destruct s as [|c t]; [discriminate|].
  unfold valid_scheme. rewrite !andb_true_iff, str_eqb_eq.
  intros [[Ha Hs] Hl]. repeat split; auto.
  - apply mem_false_forallb. revert Hs. apply forallb_impl.
    intros x Hx. destruct (scheme_char_plain _ Hx) as [-> _]. reflexivity.
  - revert Hs. apply forallb_impl.
    intros x Hx. now destruct (scheme_char_plain _ Hx) as (_ & ? & _).
  - simpl in *. apply andb_true_iff in Hs. destruct Hs as [Hc _].
    now destruct (scheme_char_plain _ Hc) as (_ & _ & ?).
Qed.

(** ** The scheme test *)
Lemma forallb_map' {A B} (f : A -> B) (p : B -> bool) (l : list A) :
  forallb p (map f l) = forallb (fun x => p (f x)) l.
Proof.
  induction l as [|x t IH]; simpl; [reflexivity|]. now rewrite IH.
Qed.

Lemma valid_scheme_lower (c : ascii) (pre : str) :
  is_ascii_alpha c = true -> forallb is_scheme_char (c :: pre) = true ->
  valid_scheme (lower (c :: pre)) = true.
Proof.
  intros Ha Hs.
  assert (E : valid_scheme (lower (c :: pre))
              = is_ascii_alpha (lower_char c)
                && forallb is_scheme_char (lower (c :: pre))
                && str_eqb (lower (lower (c :: pre))) (lower (c :: pre)))
    by reflexivity.
  rewrite E, lower_idem, str_eqb_refl, (alpha_lower _ Ha), andb_true_r.
  rewrite andb_true_l. unfold lower. rewrite forallb_map'.
  revert Hs. apply forallb_impl. apply scheme_char_lower.
Qed.

Lemma split_scheme_cases (d url sch rest : str) :
  split_scheme d url = (sch, rest) ->
  (sch = d /\ rest = url)
  \/ (valid_scheme sch = true
      /\ exists pre, partition ":" url = Some (pre, rest) /\ sch = lower pre).
Proof.
  unfold split_scheme.
  destruct (partition ":" url) as [[[|c pre] r]|] eqn:P;
    try (intros [= <- <-]; now left).
  destruct (is_ascii_alpha c && forallb is_scheme_char (c :: pre)) eqn:T;
    [|intros [= <- <-]; now left].
  intros [= <- <-]. right. split; [|now exists (c :: pre)].
  apply andb_true_iff in T. destruct T as [Ha Hs].
  now apply valid_scheme_lower.
Qed.

Lemma split_scheme_valid (d sch rest : str) :
  valid_scheme sch = true ->
  split_scheme d (sch ++ ":"%char :: rest) = (sch, rest).
Proof.
  intro V. destruct (valid_scheme_props _ V) as (_ & Hh & Hs & Hl & Hc & _).
  unfold split_scheme. rewrite (partition_app _ _ _ Hc).
  destruct sch as [|c pre]; [discriminate|].
  simpl in Hh. rewrite Hh, Hs, Hl. reflexivity.
Qed.

Lemma split_scheme_not_alpha (d url : str) :
  headed is_ascii_alpha url = false -> split_scheme d url = (d, url).
Proof.
  intro H. unfold split_scheme.
  destruct (partition ":" url) as [[[|c pre] r]|] eqn:P; try reflexivity.
  apply partition_inv in P. destruct P as [-> _]. simpl in H.
  now rewrite H.
Qed.

(** When no scheme is found in a string, none is found in a prefix of
    it. *)
Lemma split_scheme_prefix (a b : str) :
  split_scheme [] (a ++ b) = ([], a ++ b) -> split_scheme [] a = ([], a).
Proof.
  unfold split_scheme.
  destruct (partition ":" a) as [[pre r]|] eqn:P; [|reflexivity].
  apply partition_inv in P. destruct P as [-> Hc].
  rewrite <- app_assoc. cbn [app].
  rewrite (partition_app _ _ (r ++ b) Hc).
  destruct pre as [|c pre]; [reflexivity|].
  destruct (is_ascii_alpha c && forallb is_scheme_char (c :: pre));
    [discriminate | reflexivity].
Qed.

(** ** The last segment of a path and its parameters *)
Lemma after_last_none (c : ascii) (s : str) :
  mem c s = false -> after_last c s = s.
Proof.
  destruct s as [|x t]; [reflexivity|]. simpl.
  intro H. apply orb_false_iff in H. destruct H as [Hx Ht].
  rewrite Ht. rewrite Ascii.eqb_sym in Hx. now rewrite Hx.
Qed.

Lemma after_last_app (c : ascii) (a b : str) :
  mem c b = false -> after_last c (a ++ c :: b) = b.
Proof.
  intro Hb. induction a as [|x t IH]; simpl.
  - now rewrite Hb, Ascii.eqb_refl.
  - rewrite mem_app. simpl. rewrite Ascii.eqb_refl, orb_true_r. exact IH.
Qed.

Lemma mem_split (c : ascii) (s : str) :
  mem c s = true ->
  exists a b, s = a ++ c :: b /\ mem c b = false.
Proof.
  induction s as [|x t IH]; [discriminate|].
  intro H. destruct (mem c t) eqn:Ht.
  - destruct (IH eq_refl) as (a & b & -> & Hb). now exists (x :: a), b.
  - simpl in H. rewrite Ht, orb_false_r in H. apply Ascii.eqb_eq in H.
    subst. now exists [], t.
Qed.

Lemma firstn_app_exact {A} (a b : list A) :
  firstn (length (a ++ b) - length b) (a ++ b) = a.
Proof.
  rewrite length_app.
  replace (length a + length b - length b) with (length a + 0) by lia.
  rewrite firstn_app_2. simpl. apply app_nil_r.
Qed.

Lemma splitparams_slash (a b : str) :
  mem "/" b = false ->
  splitparams (a ++ "/"%char :: b) = cut_params (a ++ ["/"%char]) b.
Proof.
  intro Hb. unfold splitparams, cut_params.
  rewrite mem_app. simpl. rewrite orb_true_r.
  rewrite (after_last_app _ a b Hb).
  replace (a ++ "/"%char :: b) with ((a ++ ["/"%char]) ++ b)
    by now rewrite <- app_assoc.
  rewrite firstn_app_exact.
  now destruct (partition ";" b) as [[x y]|].
Qed.

Lemma splitparams_plain (s : str) :
  mem "/" s = false -> splitparams s = cut_params [] s.
Proof.
  intro H. unfold splitparams, cut_params. rewrite H.
  now destruct (partition ";" s) as [[x y]|].
Qed.

Lemma join_cut_params (prefix seg : str) :
  param_join (cut_params prefix seg) = prefix ++ seg
  \/ (exists x, seg = x ++ [";"%char] /\ mem ";" x = false
                /\ param_join (cut_params prefix seg) = prefix ++ x).
Proof.
  unfold cut_params.
  destruct (partition ";" seg) as [[x y]|] eqn:P; [|now left].
  apply partition_inv in P. destruct P as [-> Hx].
  destruct y as [|c y]; unfold param_join; simpl.
  - right. now exists x.
  - left. unfold lit. simpl. now rewrite <- app_assoc.
Qed.

Lemma cut_params_no_semicolon (prefix seg : str) :
  mem ";" seg = false -> cut_params prefix seg = (prefix ++ seg, []).
Proof. intro H. unfold cut_params. now rewrite (partition_none _ _ H). Qed.

(** The three shapes of the result of [canon_params]. *)
Lemma param_split_shape (sch X : str) :
  param_split sch X = (X, [])
  \/ exists prefix seg,
       X = prefix ++ seg /\ mem "/" seg = false
       /\ (prefix = [] \/ exists a, prefix = a ++ ["/"%char])
       /\ param_split sch X = cut_params prefix seg
       /\ in_list sch uses_params = true.
Proof.
  unfold param_split.
  destruct (in_list sch uses_params) eqn:U; [|now left].
  destruct (mem ";" X) eqn:M; [|now left]. simpl. right.
  destruct (mem "/" X) eqn:S.
  - destruct (mem_split _ _ S) as (a & b & -> & Hb).
    exists (a ++ ["/"%char]), b. rewrite <- app_assoc. simpl.
    repeat split; auto.
    + right. now exists a.
    + now apply splitparams_slash.
  - exists [], X. repeat split; auto. now apply splitparams_plain.
Qed.

Lemma param_split_no_semicolon_seg (sch prefix x : str) :
  mem "/" x = false -> mem ";" x = false ->
  (prefix = [] \/ exists a, prefix = a ++ ["/"%char]) ->
  param_split sch (prefix ++ x) = (prefix ++ x, []).
Proof.
  intros Hs Hx Hp. unfold param_split.
  destruct (in_list sch uses_params && mem ";" (prefix ++ x)) eqn:T;
    [|reflexivity].
  destruct Hp as [-> | [a ->]].
  - simpl. rewrite splitparams_plain by assumption.
    now apply cut_params_no_semicolon.
  - rewrite <- app_assoc. simpl. rewrite splitparams_slash by assumption.
    rewrite cut_params_no_semicolon by assumption.
    now rewrite <- app_assoc.
Qed.

Lemma canon_params_idem (sch X : str) :
  canon_params sch (canon_params sch X) = canon_params sch X.
Proof.
  destruct (param_split_shape sch X)
    as [E | (prefix & seg & -> & Hs & Hp & E & _)].
  - assert (H : canon_params sch X = X)
      by (unfold canon_params; now rewrite E).
    now rewrite !H.
  - destruct (join_cut_params prefix seg) as [J | (x & -> & Hx & J)].
    + assert (H : canon_params sch (prefix ++ seg) = prefix ++ seg)
        by (unfold canon_params; now rewrite E).
      now rewrite !H.
    + assert (H : canon_params sch (prefix ++ x ++ [";"%char]) = prefix ++ x)
        by (unfold canon_params; now rewrite E).
      rewrite H. unfold canon_params.
      rewrite param_split_no_semicolon_seg; auto.
      rewrite mem_app in Hs. now apply orb_false_iff in Hs.
Qed.

(** The normalized path is the path, or the path without a final
    semicolon. *)
Lemma canon_params_prefix (sch X : str) :
  exists r, X = canon_params sch X ++ r.
Proof.
  unfold canon_params.
  destruct (param_split_shape sch X)
    as [E | (prefix & seg & -> & Hs & Hp & E & _)].
  - rewrite E. exists []. unfold param_join. simpl. now rewrite app_nil_r.
  - rewrite E.
    destruct (join_cut_params prefix seg) as [J | (x & -> & Hx & J)];
      rewrite J.
    + exists []. now rewrite app_nil_r.
    + exists [";"%char]. now rewrite <- app_assoc.
Qed.

Lemma canon_params_fixed (sch X : str) :
  in_list sch uses_params && lone_semicolon X = false ->
  canon_params sch X = X.
Proof.
  intro H. unfold canon_params.
  destruct (param_split_shape sch X)
    as [E | (prefix & seg & -> & Hs & Hp & E & U)].
  - now rewrite E.
  - rewrite E. rewrite U in H. simpl in H.
    assert (A : after_last "/" (prefix ++ seg) = seg).
    { destruct Hp as [-> | [a ->]].
      - now apply after_last_none.
      - rewrite <- app_assoc. now apply after_last_app. }
    unfold lone_semicolon in H. rewrite A in H.
    unfold cut_params.
    destruct (partition ";" seg) as [[x y]|] eqn:P.
    + apply partition_inv in P. destruct P as [-> Hx].
      destruct y as [|c y]; [discriminate|].
      unfold param_join, lit. simpl. now rewrite <- app_assoc.
    + reflexivity.
Qed.

Lemma param_split_slash (sch X : str) :
  param_split sch ("/"%char :: X)
  = ("/"%char :: fst (param_split sch X), snd (param_split sch X)).
Proof.
  unfold param_split. rewrite mem_cons.
  replace (Ascii.eqb ";" "/") with false by reflexivity. simpl orb.
  destruct (in_list sch uses_params && mem ";" X) eqn:T; [|reflexivity].
  destruct (mem "/" X) eqn:S.
  - destruct (mem_split _ _ S) as (a & b & -> & Hb).
    rewrite (splitparams_slash a b Hb).
    change ("/"%char :: a ++ "/"%char :: b)
      with (("/"%char :: a) ++ "/"%char :: b).
    rewrite (splitparams_slash _ b Hb). unfold cut_params.
    now destruct (partition ";" b) as [[x y]|].
  - rewrite (splitparams_plain X S).
    change ("/"%char :: X) with ([] ++ "/"%char :: X).
    rewrite (splitparams_slash [] X S). unfold cut_params.
    now destruct (partition ";" X) as [[x y]|].
Qed.

Lemma canon_params_slash (sch X : str) :
  canon_params sch ("/"%char :: X) = "/"%char :: canon_params sch X.
Proof.
  unfold canon_params. rewrite param_split_slash. unfold param_join. simpl.
  now destruct (truthy (snd (param_split sch X))).
Qed.

Lemma startswith_join (a b : str) :
  startswith (lit "//") (param_join (a, b)) = startswith (lit "//") a.
Proof.
  unfold param_join. simpl. destruct b as [|c b]; simpl; [reflexivity|].
  destruct a as [|x [|y a]]; simpl; try reflexivity.
Qed.

Lemma cut_prefix (c : ascii) (s : str) : exists r, s = cut c s ++ r.
Proof.
  unfold cut. destruct (partition c s) as [[a b]|] eqn:P.
  - apply partition_inv in P. destruct P as [-> _]. now exists (c :: b).
  - exists []. now rewrite app_nil_r.
Qed.

Lemma cut_without (c : ascii) (s : str) : mem c (cut c s) = false.
Proof.
  unfold cut. destruct (partition c s) as [[a b]|] eqn:P.
  - now apply partition_inv in P.
  - now apply partition_none_inv.
Qed.

Lemma mem_prefix (c : ascii) (a r : str) :
  mem c (a ++ r) = false -> mem c a = false.
Proof. rewrite mem_app. intro H. now apply orb_false_iff in H. Qed.

Lemma forallb_prefix {A} (p : A -> bool) (a r : list A) :
  forallb p (a ++ r) = true -> forallb p a = true.
Proof. rewrite forallb_app. intro H. now apply andb_true_iff in H. Qed.

Lemma headed_prefix (p : ascii -> bool) (a r : str) :
  headed p (a ++ r) = true -> headed p a = true.
Proof. now destruct a. Qed.

Lemma headed_cut_path (s : str) :
  headed is_netloc_delim s = true ->
  headed is_slash (cut "?" (cut "#" s)) = true.
Proof.
  destruct s as [|x t]; [reflexivity|]. unfold cut. simpl.
  unfold is_netloc_delim, is_slash.
  destruct (Ascii.eqb x "#") eqn:E1; [reflexivity|].
  destruct (partition "#" t) as [[a b]|]; simpl; rewrite ?E1;
    (destruct (Ascii.eqb x "?") eqn:E2; [reflexivity|]);
    rewrite !orb_false_r.
  - destruct (partition "?" a) as [[a' b']|]; simpl; auto.
  - destruct (partition "?" t) as [[a' b']|]; simpl; auto.
Qed.

Lemma lstrip_headed (p : ascii -> bool) (s : str) :
  headed (fun c => negb (p c)) s = true -> lstrip_by p s = s.
Proof.
  destruct s as [|x t]; [reflexivity|]. simpl.
  intro H. apply negb_true_iff in H. now rewrite H.
Qed.

Lemma headed_remove_unsafe (s : str) :
  headed not_c0 s = true -> headed not_c0 (remove_unsafe s) = true.
Proof.
  destruct s as [|x t]; [reflexivity|]. simpl. intro H.
  pose proof (not_c0_safe _ H) as Hs. unfold is_safe in Hs.
  rewrite Hs. exact H.
Qed.

Lemma remove_unsafe_id (s : str) :
  forallb is_safe s = true -> remove_unsafe s = s.
Proof. exact (filter_id is_safe s). Qed.

Lemma remove_unsafe_safe (s : str) : forallb is_safe (remove_unsafe s) = true.
Proof. exact (forallb_filter_same is_safe s). Qed.

Lemma splitnetloc2_eval (nl X : str) :
  forallb not_delim nl = true -> headed is_netloc_delim X = true ->
  splitnetloc2 ("/"%char :: "/"%char :: nl ++ X) = (nl, X).
Proof.
  intros Hn HX. unfold splitnetloc2. simpl skipn.
  assert (HX' : headed (fun c => negb (negb (is_netloc_delim c))) X = true).
  { destruct X; [reflexivity|]. simpl in *. now rewrite HX. }
  f_equal; [now apply take_while_app | now apply drop_while_app].
Qed.

Lemma slash_is_delim (X : str) :
  headed is_slash X = true -> headed is_netloc_delim X = true.
Proof.
  destruct X as [|c X]; [reflexivity|]. simpl. unfold is_slash, is_netloc_delim.
  now intros ->.
Qed.

Lemma headed_slash_not_c0 (X : str) :
  headed is_slash X = true -> headed not_c0 X = true.
Proof.
  destruct X as [|c X]; [reflexivity|]. simpl. intro H.
  now destruct (slash_props _ H) as (_ & ? & _).
Qed.

Lemma split_scheme_slash (d X : str) :
  headed is_slash X = true -> split_scheme d X = (d, X).
Proof.
  destruct X as [|c X]; [reflexivity|]. simpl. intro H.
  apply split_scheme_not_alpha. simpl.
  now destruct (slash_props _ H) as (? & _).
Qed.

Lemma startswith_1 (X : str) :
  truthy X && negb (startswith (lit "/") X) = negb (headed is_slash X).
Proof.
  destruct X as [|c X]; [reflexivity|]. unfold lit. simpl.
  unfold is_slash. rewrite andb_true_r, Ascii.eqb_sym. reflexivity.
Qed.

Section Reparse.
Context {NC : NetlocChecks}.

Lemma normalize_url_unfold (u : str) :
  normalize_url u
  = rbind (urlsplit u [])
          (fun r => Ok (urlunsplit (s_scheme r) (s_netloc r)
                          (canon_params (s_scheme r) (s_path r)) [] [])).
Proof.
  unfold normalize_url, urlparse.
  destruct (urlsplit u []) as [r|e]; [|reflexivity]. cbn [rbind].
  unfold canon_params, param_split.
  destruct (in_list (s_scheme r) uses_params && mem ";" (s_path r)).
  - destruct (splitparams (s_path r)) as [a b]. reflexivity.
  - reflexivity.
Qed.

Lemma path_of_parse (u : str) (p : ParseResult) :
  urlparse u [] = Ok p ->
  exists r, urlsplit u [] = Ok r
            /\ scheme p = s_scheme r /\ netloc p = s_netloc r
            /\ (path p, params p) = param_split (s_scheme r) (s_path r).
Proof.
  unfold urlparse. destruct (urlsplit u []) as [r|e]; [|discriminate].
  cbn [rbind]. intro H. exists r. split; [reflexivity|]. unfold param_split.
  destruct (in_list (s_scheme r) uses_params && mem ";" (s_path r)).
  - destruct (splitparams (s_path r)) as [a b]. injection H as <-. auto.
  - injection H as <-. auto.
Qed.

Lemma urlsplit_eval (url sch rest nl X : str) :
  headed not_c0 url = true -> forallb is_safe url = true ->
  split_scheme [] url = (sch, rest) ->
  (if startswith (lit "//") rest then splitnetloc2 rest else ([], rest))
  = (nl, X) ->
  brackets_ok nl = true -> checknetloc nl = true ->
  mem "#" X = false -> mem "?" X = false ->
  urlsplit url [] = Ok (mkSplit sch nl X [] []).
Proof.
  intros Hh Hs Hsch Hnl Hb Hc Hf Hq. unfold urlsplit.
  rewrite (lstrip_headed _ _ Hh).
  change (remove_unsafe (strip_by is_c0_or_space [])) with (@nil ascii).
  rewrite (remove_unsafe_id _ Hs).
  rewrite Hsch, Hnl, Hb. simpl negb. cbv iota.
  rewrite (partition_none _ _ Hf), (partition_none _ _ Hq), Hc.
  reflexivity.
Qed.

Lemma urlsplit_inv (u : str) (r : SplitResult) :
  urlsplit u [] = Ok r ->
  exists url2 url3,
    split_scheme [] (cleaned u) = (s_scheme r, url2)
    /\ netloc_split url2 = (s_netloc r, url3)
    /\ brackets_ok (s_netloc r) = true
    /\ checknetloc (s_netloc r) = true
    /\ s_path r = cut "?" (cut "#" url3).
Proof.
  unfold urlsplit. fold (cleaned u).
  change (remove_unsafe (strip_by is_c0_or_space [])) with (@nil ascii).
  destruct (split_scheme [] (cleaned u)) as [sch url2] eqn:Hs.
  fold (netloc_split url2).
  destruct (netloc_split url2) as [nl url3] eqn:Hn.
  destruct (brackets_ok nl) eqn:Hb; [|discriminate]. simpl negb. cbv iota.
  destruct (partition "#" url3) as [[a b]|] eqn:P1;
    [destruct (partition "?" a) as [[a' b']|] eqn:P2
    |destruct (partition "?" url3) as [[a' b']|] eqn:P2];
    (destruct (checknetloc nl) eqn:Hc; [|discriminate]);
    intros [= <-]; exists url2, url3; cbn [s_scheme s_netloc s_path];
    unfold cut; rewrite P1, P2; auto.
Qed.

Lemma cleaned_props (u : str) :
  headed not_c0 (cleaned u) = true /\ forallb is_safe (cleaned u) = true.
Proof.
  split; [|apply remove_unsafe_safe].
  apply headed_remove_unsafe. apply drop_while_headed.
Qed.

Lemma netloc_split_props (url nl rest : str) :
  netloc_split url = (nl, rest) ->
  forallb is_safe url = true ->
  forallb not_delim nl = true
  /\ forallb is_safe nl = true /\ forallb is_safe rest = true
  /\ (truthy nl = true -> headed is_netloc_delim rest = true)
  /\ (startswith (lit "//") url = true ->
      headed is_netloc_delim rest = true)
  /\ (startswith (lit "//") url = false -> nl = [] /\ rest = url).
Proof.
  unfold netloc_split. intros H Hs.
  destruct (startswith (lit "//") url) eqn:S.
  - unfold splitnetloc2 in H. injection H as <- <-.
    assert (Hd : headed is_netloc_delim
                   (drop_while (fun c => negb (is_netloc_delim c))
                               (skipn 2 url)) = true).
    { pose proof (drop_while_headed (fun c => negb (is_netloc_delim c))
                    (skipn 2 url)) as H.
      destruct (drop_while _ (skipn 2 url)); [reflexivity|].
      simpl in *. now apply negb_true_iff, negb_false_iff in H. }
    repeat split; auto.
    + apply take_while_all.
    + apply forallb_take_while. exact (forallb_skipn is_safe 2 url Hs).
    + apply forallb_drop_while. exact (forallb_skipn is_safe 2 url Hs).
    + discriminate.
    + discriminate.
  - injection H as <- <-. repeat split; auto; discriminate.
Qed.

Lemma urlsplit_clean (u : str) (r : SplitResult) :
  urlsplit u [] = Ok r ->
  clean (s_scheme r) (s_netloc r) (canon_params (s_scheme r) (s_path r)).
Proof.
  intro H.
  destruct (urlsplit_inv _ _ H) as (url2 & url3 & Hs & Hn & Hb & Hc & Hp).
  destruct (cleaned_props u) as [Hh Hsafe].
  destruct (canon_params_prefix (s_scheme r) (s_path r)) as [t Ht].
  destruct (cut_prefix "?" (cut "#" url3)) as [t1 Ht1].
  destruct (cut_prefix "#" url3) as [t2 Ht2].
  rewrite <- Hp in Ht1.
  pose proof (split_scheme_cases _ _ _ _ Hs) as Hcases.
  assert (Hsafe2 : forallb is_safe url2 = true).
  { destruct Hcases as [[_ ->] | (_ & pre & P & _)]; [assumption|].
    apply partition_inv in P. destruct P as [E _]. rewrite E in Hsafe.
    rewrite forallb_app in Hsafe. apply andb_true_iff in Hsafe.
    destruct Hsafe as [_ Hsafe]. simpl in Hsafe. exact Hsafe. }
  destruct (netloc_split_props _ _ _ Hn Hsafe2)
    as (Hnd & Hnsafe & H3safe & Hnt & Hdd & Hnn).
  assert (Hpsafe : forallb is_safe (s_path r) = true).
  { rewrite Ht2, Ht1 in H3safe. now do 2 apply forallb_prefix in H3safe. }
  assert (Hph : mem "#" (s_path r) = false).
  { pose proof (cut_without "#" url3) as Hw. rewrite Ht1 in Hw.
    now apply mem_prefix in Hw. }
  assert (Hpq : mem "?" (s_path r) = false).
  { rewrite Hp. apply cut_without. }
  constructor.
  - destruct Hcases as [[-> _] | [V _]]; auto.
  - exact Hnd.
  - exact Hb.
  - exact Hc.
  - rewrite Ht in Hph. now apply mem_prefix in Hph.
  - rewrite Ht in Hpq. now apply mem_prefix in Hpq.
  - exact Hnsafe.
  - rewrite Ht in Hpsafe. now apply forallb_prefix in Hpsafe.
  - intro Hnl. specialize (Hnt Hnl). apply headed_cut_path in Hnt.
    rewrite <- Hp, Ht in Hnt. now apply headed_prefix in Hnt.
  - intros Hsch Hnl.
    destruct (startswith (lit "//") url2) eqn:S.
    + specialize (Hdd eq_refl). apply headed_cut_path in Hdd.
      rewrite <- Hp, Ht in Hdd. apply headed_prefix in Hdd.
      split; [now apply headed_slash_not_c0 | now apply split_scheme_slash].
    + destruct (Hnn eq_refl) as [_ ->].
      assert (E2 : url2 = cleaned u).
      { destruct Hcases as [[_ ->] | [V _]]; [reflexivity|].
        rewrite Hsch in V. discriminate. }
      rewrite Hsch, E2 in Hs.
      assert (E : cleaned u
                  = canon_params (s_scheme r) (s_path r) ++ t ++ t1 ++ t2).
      { rewrite <- E2.
        transitivity ((s_path r ++ t1) ++ t2);
          [rewrite <- Ht1; exact Ht2|].
        rewrite Ht at 1. now rewrite <- !app_assoc. }
      rewrite E in Hs, Hh. split.
      * now apply headed_prefix in Hh.
      * rewrite Hsch in *. now apply split_scheme_prefix in Hs.
  - apply canon_params_idem.
Qed.

Lemma urlunsplit_body (sch nl X : str) :
  urlunsplit sch nl X [] [] = with_scheme sch (unsplit_body sch nl X).
Proof. reflexivity. Qed.

Lemma normalize_of_parts (sch B nl X : str) :
  sch = [] \/ valid_scheme sch = true ->
  forallb is_safe B = true ->
  (sch = [] -> headed not_c0 B = true /\ split_scheme [] B = ([], B)) ->
  netloc_split B = (nl, X) ->
  brackets_ok nl = true -> checknetloc nl = true ->
  mem "#" X = false -> mem "?" X = false ->
  normalize_url (with_scheme sch B)
  = Ok (urlunsplit sch nl (canon_params sch X) [] []).
Proof.
  intros Hsch Hsafe Hbare Hn Hb Hc Hf Hq.
  rewrite normalize_url_unfold.
  assert (E : urlsplit (with_scheme sch B) [] = Ok (mkSplit sch nl X [] [])).
  { destruct Hsch as [-> | V].
    - destruct (Hbare eq_refl) as [Hh Hs]. unfold with_scheme. cbn [truthy].
      now apply (urlsplit_eval B [] B nl X).
    - destruct (valid_scheme_props _ V) as (Ht & _ & _ & _ & _ & Hss & Hh).
      unfold with_scheme. rewrite Ht. unfold lit at 1. cbn [list_ascii_of_string app].
      apply (urlsplit_eval _ sch B nl X); auto.
      + destruct sch; [discriminate|]. exact Hh.
      + rewrite forallb_app, Hss. simpl. exact Hsafe.
      + now apply split_scheme_valid. }
  rewrite E. reflexivity.
Qed.

Lemma startswith_2_cons (X : str) :
  headed is_slash X = false ->
  startswith (lit "//") ("/"%char :: X) = false.
Proof.
  destruct X as [|c X]; [reflexivity|]. intro H.
  cbn [headed] in H. unfold is_slash in H.
  unfold lit. cbn [list_ascii_of_string startswith].
  rewrite (Ascii.eqb_sym "/" c), H. reflexivity.
Qed.

Lemma netloc_split_slashes (nl X : str) :
  forallb not_delim nl = true -> headed is_slash X = true ->
  netloc_split (lit "//" ++ nl ++ X) = (nl, X).
Proof.
  intros Hn HX. unfold netloc_split, lit. cbn [list_ascii_of_string app].
  change (startswith ["/"%char; "/"%char] ("/"%char :: "/"%char :: nl ++ X))
    with true. cbv iota.
  apply splitnetloc2_eval; [assumption | now apply slash_is_delim].
Qed.

Lemma safe_slashes (nl X : str) :
  forallb is_safe nl = true -> forallb is_safe X = true ->
  forallb is_safe (lit "//" ++ nl ++ X) = true.
Proof.
  intros Hn HX. rewrite !forallb_app, Hn, HX. reflexivity.
Qed.

(** The normalizer returns its own result for a URL put together from
    clean parts, unless the network location is empty and the path
    begins with two slashes. *)
Lemma normalize_clean (sch nl X : str) :
  clean sch nl X ->
  truthy nl || negb (startswith (lit "//") X) = true ->
  normalize_url (urlunsplit sch nl X [] []) = Ok (urlunsplit sch nl X [] []).
Proof.
  intros [Hsch Hnd Hb Hc Hf Hq Hsn HsX Habs Hbare Hpar] Hcond.
  rewrite urlunsplit_body. unfold unsplit_body.
  destruct nl as [|n nl'] eqn:Enl.
  - cbn [truthy orb] in *.
    destruct (truthy sch && in_list sch uses_netloc
              && negb (startswith (lit "//") X)) eqn:T.
    + rewrite startswith_1. cbn [app].
      set (X2 := if negb (headed is_slash X) then lit "/" ++ X else X).
      assert (HX2 : headed is_slash X2 = true).
      { unfold X2. destruct (headed is_slash X) eqn:H; [exact H | reflexivity]. }
      assert (Hs2 : startswith (lit "//") X2 = false).
      { unfold X2. destruct (headed is_slash X) eqn:H; simpl negb; cbv iota.
        - apply andb_true_iff in T. destruct T as [_ T].
          now apply negb_true_iff in T.
        - now apply startswith_2_cons. }
      assert (Hp2 : canon_params sch X2 = X2).
      { unfold X2. destruct (headed is_slash X); simpl negb; cbv iota;
          [exact Hpar|].
        unfold lit. cbn [list_ascii_of_string app].
        now rewrite canon_params_slash, Hpar. }
      assert (Hsafe2 : forallb is_safe X2 = true).
      { unfold X2. destruct (headed is_slash X); simpl negb; cbv iota;
          [exact HsX|]. unfold lit. simpl. exact HsX. }
      assert (Hf2 : mem "#" X2 = false /\ mem "?" X2 = false).
      { unfold X2. destruct (headed is_slash X); simpl negb; cbv iota;
          [now split|]. unfold lit. simpl. now split. }
      destruct Hf2 as [Hf2 Hq2].
      apply andb_true_iff in T. destruct T as [T _].
      assert (Hne : sch = [] ->
                    headed not_c0 (lit "//" ++ X2) = true
                    /\ split_scheme [] (lit "//" ++ X2)
                       = ([], lit "//" ++ X2)).
      { intros ->. discriminate. }
      rewrite (normalize_of_parts sch (lit "//" ++ X2) [] X2 Hsch
                 (safe_slashes [] X2 eq_refl Hsafe2) Hne
                 (netloc_split_slashes [] X2 eq_refl HX2)
                 eq_refl eq_refl Hf2 Hq2).
      rewrite Hp2, urlunsplit_body. unfold unsplit_body. cbn [truthy orb].
      rewrite T, Hs2. simpl negb. cbv iota.
      rewrite startswith_1, HX2. reflexivity.
    + assert (Hs : startswith (lit "//") X = false)
        by now apply negb_true_iff in Hcond.
      assert (Hn : netloc_split X = ([], X))
        by (unfold netloc_split; now rewrite Hs).
      rewrite (normalize_of_parts sch X [] X Hsch HsX
                 (fun E => Hbare E eq_refl) Hn eq_refl eq_refl Hf Hq).
      rewrite Hpar, urlunsplit_body. unfold unsplit_body. cbn [truthy orb].
      now rewrite T.
  - cbn [truthy orb] in *. specialize (Habs eq_refl).
    rewrite startswith_1, Habs. simpl negb. cbv iota.
    assert (Hne : sch = [] ->
                  headed not_c0 (lit "//" ++ (n :: nl') ++ X) = true
                  /\ split_scheme [] (lit "//" ++ (n :: nl') ++ X)
                     = ([], lit "//" ++ (n :: nl') ++ X)).
    { intros _. split; [reflexivity|].
      apply split_scheme_slash. reflexivity. }
    rewrite (normalize_of_parts sch (lit "//" ++ (n :: nl') ++ X)
               (n :: nl') X Hsch (safe_slashes _ X Hsn HsX) Hne
               (netloc_split_slashes _ X Hnd Habs) Hb Hc Hf Hq).
    rewrite Hpar, urlunsplit_body. unfold unsplit_body. cbn [truthy orb].
    rewrite startswith_1, Habs. reflexivity.
Qed.

(** Normalizing twice: the normalizer returns its own result again when
    the URL has a network location or a path that does not begin with
    two slashes. *)
Lemma normalize_url_fixed (u : str) (p : ParseResult) :
  urlparse u [] = Ok p ->
  truthy (netloc p) || negb (startswith (lit "//") (path p)) = true ->
  exists v, normalize_url u = Ok v /\ normalize_url v = Ok v.
Proof.
  intros Hp Hcond.
  destruct (path_of_parse _ _ Hp) as (r & Hr & Hsch & Hnl & Hpath).
  exists (urlunsplit (s_scheme r) (s_netloc r)
            (canon_params (s_scheme r) (s_path r)) [] []).
  split.
  - rewrite normalize_url_unfold, Hr. reflexivity.
  - apply normalize_clean; [exact (urlsplit_clean u r Hr)|].
    unfold canon_params. rewrite <- Hpath, startswith_join, <- Hnl.
    exact Hcond.
Qed.

End Reparse.

Lemma split_scheme_found (d sch rest : str) :
  truthy sch = true -> headed is_ascii_alpha sch = true ->
  forallb is_scheme_char sch = true ->
  split_scheme d (sch ++ ":"%char :: rest) = (lower sch, rest).
Proof.
  intros Ht Hh Hs.
  assert (Hc : mem ":" sch = false).
  { apply mem_false_forallb. revert Hs. apply forallb_impl.
    intros x Hx. destruct (scheme_char_plain _ Hx) as [-> _]. reflexivity. }
  unfold split_scheme. rewrite (partition_app _ _ _ Hc).
  destruct sch as [|c pre]; [discriminate|].
  simpl in Hh. now rewrite Hh, Hs.
Qed.

Lemma opt_part_safe (mark : ascii) (o : option str) :
  is_safe mark = true -> opt_all is_safe o = true ->
  forallb is_safe (opt_part mark o) = true.
Proof.
  intros Hm Ho. destruct o as [s|]; [|reflexivity]. simpl in *.
  now rewrite Hm.
Qed.

Section Absolute.
Context {NC : NetlocChecks}.

Lemma urlsplit_render (c : AbsoluteUrl) :
  well_formed c = true ->
  exists q f,
    urlsplit (render c) []
    = Ok (mkSplit (lower (au_scheme c)) (au_netloc c) (au_path c) q f).
Proof.
  unfold well_formed. rewrite !andb_true_iff, !negb_true_iff.
  intros [[[[[[[[[[[[[[Ht Hh] Hs] Hnt] Hnd] Hns] Hb] Hc] Hp] Hph] Hpq] Hps]
                  Hqh] Hqs] Hfs].
  destruct c as [sch nl pth qry frg].
  cbn [au_scheme au_netloc au_path au_query au_fragment] in *.
  set (Y := pth ++ opt_part "?" qry ++ opt_part "#" frg).
  assert (HY : headed is_netloc_delim Y = true).
  { unfold Y. destruct pth as [|x pth].
    - destruct qry; [reflexivity|]. destruct frg; reflexivity.
    - simpl in *. unfold is_slash in Hp. unfold is_netloc_delim.
      now rewrite Hp. }
  assert (HYs : forallb is_safe Y = true).
  { unfold Y. rewrite !forallb_app, Hps.
    rewrite (opt_part_safe "?" qry eq_refl Hqs).
    now rewrite (opt_part_safe "#" frg eq_refl Hfs). }
  assert (Hsch : forallb is_safe sch = true /\ headed not_c0 sch = true).
  { split.
    - revert Hs. apply forallb_impl. intros x Hx.
      now destruct (scheme_char_plain _ Hx) as (_ & ? & _).
    - destruct sch as [|x sch]; [reflexivity|]. simpl in *.
      apply andb_true_iff in Hs. destruct Hs as [Hx _].
      now destruct (scheme_char_plain _ Hx) as (_ & _ & ?). }
  destruct Hsch as [Hss Hsh].
  assert (E : render (mkUrl sch nl pth qry frg)
              = sch ++ ":"%char :: (lit "//" ++ nl ++ Y)).
  { unfold render, Y. unfold lit. reflexivity. }
  rewrite E.
  exists (match qry with Some s => s | None => [] end),
         (match frg with Some s => s | None => [] end).
  unfold urlsplit.
  rewrite lstrip_headed
    by (destruct sch; [discriminate | exact Hsh]).
  change (remove_unsafe (strip_by is_c0_or_space [])) with (@nil ascii).
  rewrite remove_unsafe_id
    by (rewrite forallb_app, Hss; simpl; now apply safe_slashes).
  rewrite (split_scheme_found [] sch _ Ht Hh Hs).
  fold (netloc_split (lit "//" ++ nl ++ Y)).
  assert (Hn : netloc_split (lit "//" ++ nl ++ Y) = (nl, Y)).
  { unfold netloc_split, lit. cbn [list_ascii_of_string app].
    change (startswith ["/"%char; "/"%char]
              ("/"%char :: "/"%char :: nl ++ Y)) with true. cbv iota.
    now apply splitnetloc2_eval. }
  rewrite Hn, Hb, Hc. simpl negb. cbv iota.
  unfold Y.
  destruct frg as [f|]; destruct qry as [q|]; cbn [opt_part app];
    rewrite ?app_nil_r.
  - replace (pth ++ "?"%char :: q ++ "#"%char :: f)
      with ((pth ++ "?"%char :: q) ++ "#"%char :: f)
      by now rewrite <- app_assoc.
    rewrite (partition_app "#" (pth ++ "?"%char :: q) f).
    + now rewrite (partition_app "?" pth q Hpq).
    + rewrite mem_app, Hph. cbn [mem existsb orb].
      apply mem_false_forallb. exact Hqh.
  - rewrite (partition_app "#" pth f Hph).
    now rewrite (partition_none "?" pth Hpq).
  - rewrite (partition_none "#" (pth ++ "?"%char :: q)).
    + now rewrite (partition_app "?" pth q Hpq).
    + rewrite mem_app, Hph. cbn [mem existsb orb].
      apply mem_false_forallb. exact Hqh.
  - rewrite (partition_none "#" pth Hph).
    now rewrite (partition_none "?" pth Hpq).
Qed.

Lemma normalize_render (c : AbsoluteUrl) :
  well_formed c = true ->
  in_list (lower (au_scheme c)) uses_params && lone_semicolon (au_path c)
  = false ->
  normalize_url (render c)
  = Ok (render (without_query_fragment (with_lower_scheme c))).
Proof.
  intros Hw Hl. destruct (urlsplit_render c Hw) as (q & f & E).
  rewrite normalize_url_unfold, E. cbn [rbind s_scheme s_netloc s_path].
  rewrite (canon_params_fixed _ _ Hl). f_equal.
  unfold well_formed in Hw. rewrite !andb_true_iff in Hw.
  destruct Hw as [[[[[[[[[[[[[[Ht Hh] Hs] Hnt] _] _] _] _] Hp] _] _] _] _] _] _].
  rewrite urlunsplit_body. unfold unsplit_body, with_scheme.
  rewrite Hnt. cbn [orb]. rewrite startswith_1, Hp. simpl negb. cbv iota.
  assert (Hlt : truthy (lower (au_scheme c)) = true)
    by (destruct (au_scheme c); [discriminate | reflexivity]).
  rewrite Hlt. unfold render. cbn [au_scheme au_netloc au_path au_query
    au_fragment without_query_fragment with_lower_scheme opt_part].
  unfold lit. cbn [list_ascii_of_string app]. now rewrite !app_nil_r.
Qed.

End Absolute.

Section Normalizer.
Context {NC : NetlocChecks}.

(** C5, as amended: for a well-formed absolute URL in whose path the last
    segment does not end in a semicolon that opens empty parameters, the
    normalizer does not raise and returns the URL without its query and
    its fragment, with the scheme in lower case and the network location
    and the path unchanged. *)
Theorem normalize_strips_query_fragment (c : AbsoluteUrl) :
  well_formed c = true ->
  in_list (lower (au_scheme c)) uses_params && lone_semicolon (au_path c)
  = false ->
  normalize_url (render c)
  = Ok (render (without_query_fragment (with_lower_scheme c))).
Proof. apply normalize_render. Qed.

(** C6, as amended: normalizing is idempotent on every URL that has a
    network location or whose path does not begin with two slashes. *)
Theorem normalize_idempotent_when_settled (u : str) :
  (forall p, urlparse u [] = Ok p -> settled p = true) ->
  rbind (normalize_url u) normalize_url = normalize_url u.
Proof.
  intro H. destruct (urlparse u []) as [p|e] eqn:Hp.
  - destruct (normalize_url_fixed u p Hp (H p eq_refl)) as (v & Hv & Hvv).
    rewrite Hv. exact Hvv.
  - unfold normalize_url. rewrite Hp. reflexivity.
Qed.

Lemma resolve_all_In (base : str) (hrefs urls : list str) (u : str) :
  resolve_all base hrefs = Ok urls -> In u urls ->
  exists href full,
    In href hrefs /\ urljoin base href = Ok full
    /\ normalize_url full = Ok u.
Proof.
  revert urls. induction hrefs as [|h rest IH]; intros urls; simpl.
  - intros [= <-] [].
  - destruct (urljoin base h) as [full|e] eqn:Hj; [|discriminate]. simpl.
    destruct (normalize_url full) as [v|e] eqn:Hn; [|discriminate]. simpl.
    destruct (resolve_all base rest) as [us|e]; [|discriminate]. simpl.
    intros [= <-] [<- | Hin].
    + exists h, full. auto.
    + destruct (IH us eq_refl Hin) as (href & full' & H1 & H2 & H3).
      exists href, full'. auto.
Qed.

(** C10, as amended: every URL of the list returned by the extractor is
    the normalized form of a link of the page resolved against the base,
    and the normalizer returns it unchanged when the resolved link has a
    network location or a path that does not begin with two slashes. *)
Theorem product_urls_fixed_when_settled (doc : soup) (base : str)
  (out : list str) (u : str) :
  parse_category_product_urls_soup doc base = Ok out ->
  In u out ->
  exists href full p,
    In href (linked_hrefs (product_links doc))
    /\ urljoin base href = Ok full
    /\ urlparse full [] = Ok p
    /\ normalize_url full = Ok u
    /\ (settled p = true -> normalize_url u = Ok u).
Proof.
  intros Ho Hin. rewrite parse_category_product_urls_keep_first in Ho.
  destruct (resolve_all base (linked_hrefs (product_links doc)))
    as [urls|e] eqn:Hr; [|discriminate].
  simpl in Ho. injection Ho as <-.
  apply (proj1 (keep_first_In urls u)) in Hin.
  destruct (resolve_all_In base _ urls u Hr Hin) as (href & full & H1 & H2 & H3).
  destruct (urlparse full []) as [p|e] eqn:Hp.
  - exists href, full, p. repeat split; auto.
    intro Hs.
    destruct (normalize_url_fixed full p Hp Hs) as (v & Hv & Hvv).
    rewrite H3 in Hv. injection Hv as <-. exact Hvv.
  - unfold normalize_url in H3. rewrite Hp in H3. discriminate.
Qed.

End Normalizer.

Lemma normalize_strips_query_fragment_witness :
  @normalize_url TraceWorld.lax_checks (lit "https://x.test/p?a=1#frag")
  = Ok (lit "https://x.test/p").
Proof.
  exact (@normalize_strips_query_fragment TraceWorld.lax_checks
           plain_url eq_refl eq_refl).
Defined.

(** C5, the claim as stated fails: [https://x.test/p;?a=1] is a
    well-formed absolute URL with the path [/p;], and the normalizer
    returns [https://x.test/p], whose path is [/p]. *)
Lemma normalize_path_unchanged_fails :
  @well_formed TraceWorld.lax_checks semicolon_url = true
  /\ render semicolon_url = lit "https://x.test/p;?a=1"
  /\ @normalize_url TraceWorld.lax_checks (render semicolon_url)
     = Ok (lit "https://x.test/p")
  /\ render (without_query_fragment semicolon_url) = lit "https://x.test/p;"
  /\ ~ (forall c,
          @well_formed TraceWorld.lax_checks c = true ->
          @normalize_url TraceWorld.lax_checks (render c)
          = Ok (render (without_query_fragment c))).
Proof.
  split; [reflexivity|]. split; [reflexivity|]. split; [reflexivity|].
  split; [reflexivity|].
  intro H. specialize (H semicolon_url eq_refl). discriminate H.
Qed.

Lemma normalize_idempotent_when_settled_witness :
  rbind (@normalize_url TraceWorld.lax_checks
           (lit "https://x.test/p?a=1#frag"))
        (@normalize_url TraceWorld.lax_checks)
  = Ok (lit "https://x.test/p").
Proof.
  refine (eq_trans
            (@normalize_idempotent_when_settled TraceWorld.lax_checks
               (lit "https://x.test/p?a=1#frag") _) _).
  - intros p Hp. injection Hp as <-. reflexivity.
  - reflexivity.
Defined.

(** C6, the claim as stated fails: the normalizer turns [http://////x]
    into [http:////x], and [http:////x] into [http://x]. *)
Lemma normalize_not_idempotent :
  @normalize_url TraceWorld.lax_checks (lit "http://////x")
  = Ok (lit "http:////x")
  /\ @normalize_url TraceWorld.lax_checks (lit "http:////x")
     = Ok (lit "http://x")
  /\ ~ (forall u,
          rbind (@normalize_url TraceWorld.lax_checks u)
                (@normalize_url TraceWorld.lax_checks)
          = @normalize_url TraceWorld.lax_checks u).
Proof.
  split; [reflexivity|]. split; [reflexivity|].
  intro H. specialize (H (lit "http://////x")). discriminate H.
Qed.

Lemma product_urls_fixed_when_settled_witness :
  exists href full p,
    In href (linked_hrefs (product_links listing_doc))
    /\ @urljoin TraceWorld.lax_checks listing_base href = Ok full
    /\ @urlparse TraceWorld.lax_checks full [] = Ok p
    /\ @normalize_url TraceWorld.lax_checks full
       = Ok (lit "https://www.konga.com/product/b")
    /\ (settled p = true ->
        @normalize_url TraceWorld.lax_checks
          (lit "https://www.konga.com/product/b")
        = Ok (lit "https://www.konga.com/product/b")).
Proof.
  apply (@product_urls_fixed_when_settled TraceWorld.lax_checks
           listing_doc listing_base
           [lit "https://www.konga.com/product/a";
            lit "https://www.konga.com/product/b"]).
  - reflexivity.
  - right. left. reflexivity.
Defined.

(** C10, the claim as stated fails: for a page whose only product link is
    [http://////x], the extractor returns [http:////x], which the
    normalizer turns into [http://x]. *)
Lemma product_urls_not_fixed :
  @parse_category_product_urls_soup TraceWorld.lax_checks
     slashes_doc listing_base
  = Ok [lit "http:////x"]
  /\ @normalize_url TraceWorld.lax_checks (lit "http:////x")
     = Ok (lit "http://x")
  /\ ~ (forall doc base out u,
          @parse_category_product_urls_soup TraceWorld.lax_checks doc base
          = Ok out ->
          In u out ->
          @normalize_url TraceWorld.lax_checks u = Ok u).
Proof.
  split; [reflexivity|]. split; [reflexivity|].
  intro H.
  specialize (H slashes_doc listing_base [lit "http:////x"]
                (lit "http:////x") eq_refl (or_introl eq_refl)).
  discriminate H.
Qed.

(** ** The fields of the extracted records *)

Lemma headed_drop_prefix (p : ascii -> bool) (x w : str) :
  headed p (rev (x ++ w)) = true -> headed p (rev w) = true.
Proof.
  rewrite rev_app_distr. apply headed_prefix.
Qed.

Lemma strip_trimmed (s : str) : trimmed (strip s) = true.
Proof.
  unfold trimmed, strip, strip_by, rstrip_by, lstrip_by.
  set (t := drop_while isspace s).
  set (w := drop_while isspace (rev t)).
  assert (Ht : headed not_space t = true) by apply drop_while_headed.
  assert (Hw : headed not_space w = true) by apply drop_while_headed.
  rewrite rev_involutive, Hw, andb_true_r.
  pose proof (take_drop_while isspace (rev t)) as E. fold w in E.
  apply (headed_drop_prefix not_space (take_while isspace (rev t)) w).
  now rewrite E, rev_involutive.
Qed.

Lemma trimmed_app (a b : str) :
  truthy a = true -> truthy b = true ->
  trimmed a = true -> trimmed b = true -> trimmed (a ++ b) = true.
Proof.
  unfold trimmed. rewrite !andb_true_iff. intros Ha Hb [Ha1 _] [_ Hb2].
  split.
  - destruct a; [discriminate | exact Ha1].
  - rewrite rev_app_distr. destruct (rev b) eqn:E; [|exact Hb2].
    apply (f_equal (@length ascii)) in E. rewrite length_rev in E.
    destruct b; discriminate.
Qed.

Lemma trimmed_concat (parts : list str) :
  Forall (fun s => truthy s = true /\ trimmed s = true) parts ->
  trimmed (concat parts) = true.
Proof.
  induction 1 as [|s rest [Ht Hs] Hrest IH]; [reflexivity|]. simpl.
  destruct (concat rest) eqn:E.
  - now rewrite app_nil_r.
  - apply trimmed_app; auto.
Qed.

Lemma get_text_strip_trimmed (n : node) : trimmed (get_text_strip n) = true.
Proof.
  unfold get_text_strip. apply trimmed_concat.
  apply Forall_forall. intros s Hs. apply filter_In in Hs.
  destruct Hs as [Hin Ht]. split; [exact Ht|].
  apply in_map_iff in Hin. destruct Hin as (x & <- & _).
  apply strip_trimmed.
Qed.

Lemma author_of_text_trimmed (s : str) :
  trimmed s = true -> trimmed (author_of_text s) = true.
Proof.
  intro H. unfold author_of_text.
  destruct (startswith (lit "by ") (lower s)); [apply strip_trimmed | exact H].
Qed.

Lemma block_meta_trimmed (block : node) :
  trimmed (fst (block_meta block)) = true
  /\ trimmed (snd (block_meta block)) = true.
Proof.
  unfold block_meta.
  destruct (select_one sel_meta_div block) as [m|]; [|split; reflexivity].
  split; cbn [fst snd].
  - destruct (nth_error (select_in sel_span m) 0);
      [apply get_text_strip_trimmed | reflexivity].
  - destruct (nth_error (select_in sel_span m) 1);
      [apply author_of_text_trimmed, get_text_strip_trimmed | reflexivity].
Qed.

(** The tokens of [s.split()] are not empty and hold no white space. *)
Lemma split_ws_aux_tokens (s cur : str) :
  forallb not_space cur = true ->
  Forall (fun t => truthy t = true /\ forallb not_space t = true)
         (split_ws_aux cur s).
Proof.
  revert cur. induction s as [|c s IH]; intros cur Hcur; simpl.
  - destruct cur as [|x cur]; constructor; [|constructor].
    split.
    + destruct (rev (x :: cur)) eqn:E; [|reflexivity].
      apply (f_equal (@length ascii)) in E. rewrite length_rev in E.
      discriminate.
    + rewrite forallb_forall in *. intros y Hy. apply Hcur.
      now apply in_rev.
  - destruct (isspace c) eqn:Hc.
    + destruct cur as [|x cur]; [now apply IH|].
      constructor; [|now apply IH]. split.
      * destruct (rev (x :: cur)) eqn:E; [|reflexivity].
        apply (f_equal (@length ascii)) in E. rewrite length_rev in E.
        discriminate.
      * rewrite forallb_forall in *. intros y Hy. apply Hcur.
        now apply in_rev.
    + apply IH. simpl. unfold not_space at 1. now rewrite Hc.
Qed.

Lemma block_rating_no_space (block : node) :
  forallb not_space (block_rating block) = true.
Proof.
  unfold block_rating.
  destruct (select_one sel_stars block) as [el|]; [|reflexivity].
  pose proof (split_ws_aux_tokens (get_text_strip el) [] eq_refl) as H.
  unfold split_ws. destruct (split_ws_aux [] (get_text_strip el));
    [reflexivity|].
  inversion H as [|? ? [_ Hp] _]. exact Hp.
Qed.

Lemma in_parse_reviews_soup (doc : soup) (r : review) :
  In r (parse_reviews_soup doc) ->
  exists block, In block (review_blocks doc) /\ block_review block = Some r.
Proof.
  unfold parse_reviews_soup. intro H. apply in_flat_map in H.
  destruct H as (block & Hb & Hr). exists block. split; [exact Hb|].
  destruct (block_review block) as [r'|]; [|contradiction].
  destruct Hr as [<- | []]. reflexivity.
Qed.

Lemma block_review_has_text (block : node) (r : review) :
  block_review block = Some r ->
  truthy (title r) || truthy (body r) = true.
Proof.
  intro Hr. unfold block_review in Hr. destruct (block_meta block) as [d a].
  destruct (truthy (block_body block)) eqn:Hb;
    destruct (truthy (block_title block)) eqn:Ht; simpl in Hr;
    try discriminate; injection Hr as <-; simpl; rewrite ?Hb, ?Ht;
    reflexivity.
Qed.

(** Every record of [parse_reviews] has a title or a body. *)
Theorem records_have_title_or_body (doc : soup) (r : review) :
  In r (parse_reviews_soup doc) ->
  truthy (title r) || truthy (body r) = true.
Proof.
  intro H. destruct (in_parse_reviews_soup doc r H) as (block & _ & Hr).
  exact (block_review_has_text block r Hr).
Qed.

(** The title, the body, the date and the author of every record have
    white space at neither end, and its rating holds no white space. *)
Theorem record_fields_trimmed (doc : soup) (r : review) :
  In r (parse_reviews_soup doc) ->
  trimmed (title r) = true /\ trimmed (body r) = true
  /\ trimmed (date r) = true /\ trimmed (author r) = true
  /\ forallb not_space (rating r) = true.
Proof.
  intro H. destruct (in_parse_reviews_soup doc r H) as (block & _ & Hr).
  apply block_review_fields in Hr.
  destruct Hr as (-> & -> & -> & -> & ->).
  destruct (block_meta_trimmed block) as [Hd Ha].
  repeat split; auto.
  - unfold block_title. destruct (select_one sel_h3 block);
      [apply get_text_strip_trimmed | reflexivity].
  - unfold block_body. destruct (select_in sel_p block);
      [reflexivity | apply get_text_strip_trimmed].
  - apply block_rating_no_space.
Qed.


(** ** The result of the normalizer holds no query and no fragment *)

Lemma no_mark_mem (s : str) :
  forallb no_mark s = true <-> mem "?" s = false /\ mem "#" s = false.
Proof.
  induction s as [|x t IH]; [simpl; tauto|].
  cbn [forallb]. rewrite !mem_cons, andb_true_iff, IH, !orb_false_iff.
  unfold no_mark. rewrite negb_true_iff, orb_false_iff.
  rewrite (Ascii.eqb_sym "?" x), (Ascii.eqb_sym "#" x). tauto.
Qed.

Lemma scheme_char_no_mark (c : ascii) :
  is_scheme_char c = true -> no_mark c = true.
Proof. all_chars c. Qed.

Lemma not_delim_no_mark (c : ascii) :
  not_delim c = true -> no_mark c = true.
Proof. all_chars c. Qed.

Section NoMark.
Context {NC : NetlocChecks}.

Lemma clean_no_mark (sch nl X : str) :
  clean sch nl X ->
  forallb no_mark (urlunsplit sch nl X [] []) = true.
Proof.
  intros [Hsch Hnd _ _ Hf Hq _ _ _ _ _].
  assert (HX : forallb no_mark X = true) by now apply no_mark_mem.
  assert (Hn : forallb no_mark nl = true).
  { revert Hnd. apply forallb_impl. apply not_delim_no_mark. }
  assert (Hs : forallb no_mark sch = true).
  { destruct Hsch as [-> | V]; [reflexivity|].
    destruct (valid_scheme_props _ V) as (_ & _ & H & _).
    revert H. apply forallb_impl. apply scheme_char_no_mark. }
  rewrite urlunsplit_body.
  assert (HB : forallb no_mark (unsplit_body sch nl X) = true).
  { unfold unsplit_body.
    destruct (truthy nl
              || truthy sch && in_list sch uses_netloc
                 && negb (startswith (lit "//") X)); [|exact HX].
    rewrite !forallb_app, Hn.
    destruct (truthy X && negb (startswith (lit "/") X)); [|exact HX].
    rewrite forallb_app, HX. reflexivity. }
  unfold with_scheme. destruct (truthy sch); [|exact HB].
  rewrite !forallb_app, Hs, HB. reflexivity.
Qed.

(** Whatever the URL, the result of the normalizer holds neither a
    question mark nor a hash. *)
Theorem normalized_has_no_query_fragment (u v : str) :
  normalize_url u = Ok v -> mem "?" v = false /\ mem "#" v = false.
Proof.
  rewrite normalize_url_unfold.
  destruct (urlsplit u []) as [r|e] eqn:Hr; [|discriminate].
  cbn [rbind]. intros [= <-]. apply no_mark_mem.
  apply clean_no_mark. exact (urlsplit_clean u r Hr).
Qed.

End NoMark.


(** ** The normalizer does not look at the query and the fragment *)

Lemma mark_props (c : ascii) :
  is_mark c = true ->
  is_c0_or_space c = false /\ is_safe c = true /\ is_scheme_char c = false
  /\ Ascii.eqb c ":" = false /\ Ascii.eqb "/" c = false
  /\ is_netloc_delim c = true.
Proof.
  destruct c as [[] [] [] [] [] [] [] []]; vm_compute; intro H;
    try discriminate H; repeat split; reflexivity.
Qed.

Lemma drop_while_app_stop (p : ascii -> bool) (a t : str) (c : ascii) :
  p c = false ->
  drop_while p (a ++ c :: t) = drop_while p a ++ c :: t.
Proof.
  intro Hc. induction a as [|x a IH]; simpl.
  - now rewrite Hc.
  - destruct (p x); [exact IH | reflexivity].
Qed.

Lemma take_while_app_stop (p : ascii -> bool) (a t : str) (c : ascii) :
  p c = false ->
  take_while p (a ++ c :: t) = take_while p a.
Proof.
  intro Hc. induction a as [|x a IH]; simpl.
  - now rewrite Hc.
  - destruct (p x); [now rewrite IH | reflexivity].
Qed.

Lemma cleaned_app_mark (u t : str) (c : ascii) :
  is_mark c = true ->
  cleaned (u ++ c :: t) = cleaned u ++ c :: remove_unsafe t.
Proof.
  intro Hc. destruct (mark_props c Hc) as (H0 & Hs & _).
  unfold cleaned, lstrip_by. rewrite (drop_while_app_stop _ _ _ _ H0).
  unfold remove_unsafe. rewrite filter_app. cbn [filter].
  unfold is_safe in Hs. now rewrite Hs.
Qed.

Lemma forallb_scheme_mark (a t : str) (c : ascii) :
  is_mark c = true -> forallb is_scheme_char (a ++ c :: t) = false.
Proof.
  intro Hc. destruct (mark_props c Hc) as (_ & _ & Hs & _).
  rewrite forallb_app. cbn [forallb]. rewrite Hs.
  now rewrite andb_false_r.
Qed.

Lemma partition_app_absent (c : ascii) (a b : str) :
  mem c a = false ->
  partition c (a ++ b)
  = match partition c b with
    | Some (x, y) => Some (a ++ x, y)
    | None => None
    end.
Proof.
  intro H. induction a as [|x a IH]; simpl.
  - now destruct (partition c b) as [[? ?]|].
  - rewrite mem_cons in H. apply orb_false_iff in H. destruct H as [Hx Ha].
    rewrite Ascii.eqb_sym in Hx. rewrite Hx, (IH Ha).
    now destruct (partition c b) as [[? ?]|].
Qed.

Lemma partition_app_present (c : ascii) (a b x y : str) :
  partition c a = Some (x, y) -> partition c (a ++ b) = Some (x, y ++ b).
Proof.
  intro H. apply partition_inv in H. destruct H as [-> Hx].
  rewrite <- app_assoc. cbn [app]. now apply partition_app.
Qed.

Lemma split_scheme_app_mark (a t : str) (c : ascii) :
  is_mark c = true ->
  split_scheme [] (a ++ c :: t)
  = (fst (split_scheme [] a), snd (split_scheme [] a) ++ c :: t).
Proof.
  intro Hc. destruct (mark_props c Hc) as (_ & _ & _ & Hcol & _).
  unfold split_scheme.
  destruct (partition ":" a) as [[pre r]|] eqn:P.
  - rewrite (partition_app_present _ _ _ _ _ P).
    destruct pre as [|x pre]; [reflexivity|].
    now destruct (is_ascii_alpha x && forallb is_scheme_char (x :: pre)).
  - apply partition_none_inv in P.
    rewrite (partition_app_absent _ _ _ P). cbn [partition].
    rewrite Hcol.
    destruct (partition ":" t) as [[x y]|]; [|reflexivity].
    destruct (a ++ c :: x) as [|z pre] eqn:E; [reflexivity|].
    rewrite <- E, (forallb_scheme_mark a x c Hc), andb_false_r.
    reflexivity.
Qed.

Lemma startswith_app_mark (a t : str) (c : ascii) :
  is_mark c = true ->
  startswith (lit "//") (a ++ c :: t) = startswith (lit "//") a.
Proof.
  intro Hc. destruct (mark_props c Hc) as (_ & _ & _ & _ & Hs & _).
  unfold lit. cbn [list_ascii_of_string].
  destruct a as [|x [|y a]]; cbn [app startswith].
  - now rewrite Hs.
  - now rewrite Hs, !andb_false_r.
  - reflexivity.
Qed.

Lemma netloc_split_app_mark (a t : str) (c : ascii) :
  is_mark c = true ->
  netloc_split (a ++ c :: t)
  = (fst (netloc_split a), snd (netloc_split a) ++ c :: t).
Proof.
  intro Hc. destruct (mark_props c Hc) as (_ & _ & _ & _ & _ & Hd).
  unfold netloc_split. rewrite (startswith_app_mark a t c Hc).
  destruct (startswith (lit "//") a) eqn:S; [|reflexivity].
  destruct a as [|x [|y a]].
  - discriminate S.
  - unfold lit in S. cbn [list_ascii_of_string startswith] in S.
    rewrite andb_false_r in S. discriminate S.
  - unfold splitnetloc2. cbn [app skipn fst snd].
    assert (Hn : negb (is_netloc_delim c) = false) by now rewrite Hd.
    now rewrite (take_while_app_stop _ a t c Hn),
                (drop_while_app_stop _ a t c Hn).
Qed.

Lemma cut_absent (c : ascii) (s : str) : mem c s = false -> cut c s = s.
Proof. intro H. unfold cut. now rewrite (partition_none _ _ H). Qed.

Lemma cut_app (c : ascii) (a b : str) :
  mem c a = false -> cut c (a ++ c :: b) = a.
Proof. intro H. unfold cut. now rewrite (partition_app _ _ _ H). Qed.

Lemma cut_app_absent (c : ascii) (a b : str) :
  mem c a = false -> cut c (a ++ b) = a ++ cut c b.
Proof.
  intro H. unfold cut. rewrite (partition_app_absent _ _ _ H).
  now destruct (partition c b) as [[x y]|].
Qed.

Lemma cut_cons (c x : ascii) (s : str) :
  Ascii.eqb x c = false -> cut c (x :: s) = x :: cut c s.
Proof.
  intro H. unfold cut. cbn [partition]. rewrite H.
  now destruct (partition c s) as [[a b]|].
Qed.

Lemma cut_path_app_mark (a t : str) (c : ascii) :
  is_mark c = true -> forallb no_mark a = true ->
  cut "?" (cut "#" (a ++ c :: t)) = cut "?" (cut "#" a).
Proof.
  intros Hc Ha. apply no_mark_mem in Ha. destruct Ha as [Hq Hh].
  rewrite (cut_absent "#" a Hh), (cut_absent "?" a Hq).
  unfold is_mark in Hc. apply orb_true_iff in Hc.
  destruct Hc as [Hc | Hc]; apply Ascii.eqb_eq in Hc; subst c.
  - rewrite (cut_app_absent "#" a _ Hh).
    rewrite (cut_cons "#" "?" t eq_refl). now apply cut_app.
  - rewrite (cut_app "#" a t Hh). now apply cut_absent.
Qed.

Lemma no_mark_split_scheme (a : str) :
  forallb no_mark a = true ->
  forallb no_mark (snd (split_scheme [] a)) = true.
Proof.
  intro H. destruct (split_scheme [] a) as [sch r] eqn:E.
  destruct (split_scheme_cases _ _ _ _ E) as [[_ ->] | (_ & pre & P & _)];
    [exact H|].
  apply partition_inv in P. destruct P as [-> _].
  rewrite forallb_app in H. apply andb_true_iff in H. destruct H as [_ H].
  cbn [forallb] in H. apply andb_true_iff in H. now destruct H.
Qed.

Lemma no_mark_netloc_split (a : str) :
  forallb no_mark a = true ->
  forallb no_mark (snd (netloc_split a)) = true.
Proof.
  intro H. unfold netloc_split.
  destruct (startswith (lit "//") a); [|exact H].
  unfold splitnetloc2. cbn [snd]. apply forallb_drop_while.
  exact (forallb_skipn no_mark 2 a H).
Qed.

Lemma no_mark_cleaned (u : str) :
  forallb no_mark u = true -> forallb no_mark (cleaned u) = true.
Proof.
  intro H. unfold cleaned, remove_unsafe, lstrip_by.
  apply (forallb_drop_while no_mark is_c0_or_space) in H.
  rewrite forallb_forall in *. intros x Hx. apply filter_In in Hx.
  apply H. now destruct Hx.
Qed.

Section Staged.
Context {NC : NetlocChecks}.

Lemma normalize_url_staged (u : str) :
  normalize_url u = normalize_staged u.
Proof.
  rewrite normalize_url_unfold. unfold urlsplit, normalize_staged.
  fold (cleaned u).
  change (remove_unsafe (strip_by is_c0_or_space [])) with (@nil ascii).
  destruct (split_scheme [] (cleaned u)) as [sch u2].
  fold (netloc_split u2). destruct (netloc_split u2) as [nl u3].
  destruct (brackets_ok nl); [|reflexivity]. cbn [negb].
  unfold cut.
  destruct (partition "#" u3) as [[a b]|];
    [destruct (partition "?" a) as [[a' b']|]
    |destruct (partition "?" u3) as [[a' b']|]];
    destruct (checknetloc nl); reflexivity.
Qed.

(** A query or a fragment put after a URL that has neither does not
    change what the normalizer returns. *)
Theorem normalize_ignores_query_fragment (u t : str) (c : ascii) :
  mem "?" u = false -> mem "#" u = false ->
  c = "?"%char \/ c = "#"%char ->
  normalize_url (u ++ c :: t) = normalize_url u.
Proof.
  intros Hq Hh Hc.
  assert (Hm : is_mark c = true) by (destruct Hc as [-> | ->]; reflexivity).
  assert (Hu : forallb no_mark u = true) by now apply no_mark_mem.
  rewrite !normalize_url_staged. unfold normalize_staged.
  rewrite (cleaned_app_mark u t c Hm).
  rewrite (split_scheme_app_mark (cleaned u) (remove_unsafe t) c Hm).
  pose proof (no_mark_split_scheme (cleaned u) (no_mark_cleaned u Hu)) as H2.
  destruct (split_scheme [] (cleaned u)) as [sch u2]. cbn [fst snd] in *.
  rewrite (netloc_split_app_mark u2 (remove_unsafe t) c Hm).
  pose proof (no_mark_netloc_split u2 H2) as H3.
  destruct (netloc_split u2) as [nl u3]. cbn [fst snd] in *.
  now rewrite (cut_path_app_mark u3 (remove_unsafe t) c Hm H3).
Qed.

End Staged.


(** ** A link that cannot be resolved *)

Lemma resolve_all_raise {NC : NetlocChecks} (base : str) (hrefs : list str)
  (h : str) (e : exn) :
  In h hrefs -> rbind (urljoin base h) normalize_url = Raise e ->
  exists e', resolve_all base hrefs = Raise e'.
Proof.
  intros Hin Hr. induction hrefs as [|x rest IH]; [contradiction|].
  cbn [resolve_all].
  destruct (rbind (urljoin base x) normalize_url) as [u|e1] eqn:Hx;
    [|exists e1; reflexivity].
  cbn [rbind]. destruct Hin as [-> | Hin]; [congruence|].
  destruct (IH Hin) as [e' ->]. exists e'. reflexivity.
Qed.

(** One link of the page that [urljoin] or the normalizer rejects makes
    the extractor raise: no URL of the page is returned. *)
Theorem malformed_link_aborts {NC : NetlocChecks} (doc : soup)
  (base h : str) (e : exn) :
  In h (linked_hrefs (product_links doc)) ->
  rbind (urljoin base h) normalize_url = Raise e ->
  exists e', parse_category_product_urls_soup doc base = Raise e'.
Proof.
  intros Hin Hr. rewrite parse_category_product_urls_keep_first.
  destruct (resolve_all_raise base _ h e Hin Hr) as [e' ->].
  exists e'. reflexivity.
Qed.

Section CrawlerEdges.
Context {E : Env} {NC : NetlocChecks} {HP : HtmlParser}.

(** ** A page limit below one *)

Lemma page_range_nonpositive (pages : Z) :
  (pages <= 0)%Z -> page_range pages = [].
Proof.
  intro H. unfold page_range.
  replace (Z.to_nat pages) with 0 by lia. reflexivity.
Qed.

(** With a page limit below one the review crawler requests nothing: it
    returns no review, or raises when the product URL cannot be
    normalized, and the world is as it was. *)
Theorem no_pages_no_request (product_url : str) (pages : Z) (delay : Delay)
  (w : World) :
  (pages <= 0)%Z ->
  scrape_jumia_reviews product_url pages delay w
  = (rbind (normalize_url product_url) (fun _ => Ok []), w).
Proof.
  intro H. unfold scrape_jumia_reviews, bind, lift.
  rewrite (page_range_nonpositive pages H).
  now destruct (normalize_url product_url).
Qed.

(** With a page limit below one the category crawler requests nothing
    and returns no row for a registered key. *)
Theorem no_category_pages_no_request (key : str) (pages review_pages : Z)
  (delay : Delay) (w : World) :
  (pages <= 0)%Z -> registered key = true ->
  scrape_category key pages review_pages delay w = (Ok [], w).
Proof.
  intros H Hk. unfold scrape_category, bind, lift, registry_lookup.
  unfold registered in Hk. rewrite (page_range_nonpositive pages H).
  now destruct (lookup key CATEGORY_URLS).
Qed.

(** ** A key that is not in the registry *)

(** The category crawler raises [KeyError] on a key that is not in the
    registry, before any request. *)
Theorem unknown_key_raises (key : str) (pages review_pages : Z)
  (delay : Delay) (w : World) :
  registered key = false ->
  scrape_category key pages review_pages delay w = (Raise KeyError, w).
Proof.
  intro Hk. unfold scrape_category, bind, lift, registry_lookup.
  unfold registered in Hk.
  now destruct (lookup key CATEGORY_URLS).
Qed.

(** ** A request that fails *)

Lemma sleep_if_ok (delay : Delay) (b : bool) (w : World) :
  (forall w', fst (time_sleep delay w') = Ok tt) ->
  exists w2, sleep_if b delay w = (Ok tt, w2).
Proof.
  intro Hs. destruct b; simpl; [|now exists w].
  specialize (Hs w). destruct (time_sleep delay w) as [[[]|e] w2];
    simpl in Hs; [now exists w2 | discriminate].
Qed.

Lemma review_pages_loop_raise (base : str) (n : Z) (delay : Delay)
  (page_html : Z -> str) (before after : list Z) (k : Z) (e : exn) :
  (forall j w, In j before ->
               fst (fetch_page base [(lit "page", j)] w) = Ok (page_html j)) ->
  (forall j, In j before -> parse_reviews (page_html j) <> []) ->
  (forall w, fst (fetch_page base [(lit "page", k)] w) = Raise e) ->
  (forall w, fst (time_sleep delay w) = Ok tt) ->
  forall acc w,
    fst (review_pages_loop base n delay (before ++ k :: after) acc w)
    = Raise e.
Proof.
  intros Hfetch Hfull Hfail Hsleep.
  induction before as [|j before IH]; intros acc w; cbn [app review_pages_loop].
  - unfold bind at 1. specialize (Hfail w).
    destruct (fetch_page base [(lit "page", k)] w) as [[html|e'] w1];
      simpl in Hfail; [discriminate|]. simpl. congruence.
  - unfold bind at 1.
    pose proof (Hfetch j w (or_introl eq_refl)) as Hj.
    destruct (fetch_page base [(lit "page", j)] w) as [[html|e'] w1];
      simpl in Hj; [|discriminate].
    injection Hj as ->.
    destruct (parse_reviews (page_html j)) as [|r rs] eqn:Hp.
    + exfalso. apply (Hfull j (or_introl eq_refl)). exact Hp.
    + unfold bind at 1.
      destruct (sleep_if_ok delay (delay_truthy delay && (j <? n)%Z) w1 Hsleep)
        as [w2 ->].
      apply IH.
      * intros j' w' Hin. apply Hfetch. now right.
      * intros j' Hin. apply Hfull. now right.
Qed.

(** When the pages before page [k] have reviews and the request for page
    [k] fails, the review crawler raises the exception of the request:
    the reviews of the earlier pages are not returned. *)
Theorem failed_request_aborts (product_url base : str) (n k : Z)
  (delay : Delay) (page_html : Z -> str) (e : exn) (w : World) :
  (1 <= k <= n)%Z ->
  normalize_url product_url = Ok base ->
  (forall j w', (1 <= j < k)%Z ->
                fst (fetch_page base [(lit "page", j)] w') = Ok (page_html j)) ->
  (forall j, (1 <= j < k)%Z -> parse_reviews (page_html j) <> []) ->
  (forall w', fst (fetch_page base [(lit "page", k)] w') = Raise e) ->
  (forall w', fst (time_sleep delay w') = Ok tt) ->
  fst (scrape_jumia_reviews product_url n delay w) = Raise e.
Proof.
  intros Hk Hbase Hfetch Hfull Hfail Hsleep.
  unfold scrape_jumia_reviews, bind, lift. rewrite Hbase.
  rewrite (page_range_split n k Hk).
  apply (review_pages_loop_raise base n delay page_html); auto.
  - intros j w' Hin. apply Hfetch. apply page_range_In in Hin. lia.
  - intros j Hin. apply Hfull. apply page_range_In in Hin. lia.
Qed.

(** ** What every returned row holds *)

Lemma parse_reviews_text (html : str) :
  Forall (fun r => review_has_text r = true) (parse_reviews html).
Proof.
  apply Forall_forall. intros r Hr. unfold parse_reviews in Hr.
  destruct (in_parse_reviews_soup _ r Hr) as (block & _ & Hb).
  exact (block_review_has_text block r Hb).
Qed.

Lemma review_pages_loop_text (base : str) (n : Z) (delay : Delay)
  (todo : list Z) :
  forall acc w rs w',
    Forall (fun r => review_has_text r = true) acc ->
    review_pages_loop base n delay todo acc w = (Ok rs, w') ->
    Forall (fun r => review_has_text r = true) rs.
Proof.
  induction todo as [|page rest IH]; intros acc w rs w' Hacc H;
    cbn [review_pages_loop] in H.
  - injection H as <- _. exact Hacc.
  - unfold bind at 1 in H.
    destruct (fetch_page base [(lit "page", page)] w) as [[html|e] w1];
      [|discriminate].
    pose proof (parse_reviews_text html) as Hp.
    destruct (parse_reviews html) as [|r0 rs0].
    + injection H as <- _. exact Hacc.
    + unfold bind at 1 in H.
      destruct (sleep_if (delay_truthy delay && (page <? n)%Z) delay w1)
        as [[[]|e] w2]; [|discriminate].
      apply (IH _ _ _ _ (proj2 (Forall_app _ _ _) (conj Hacc Hp)) H).
Qed.

Lemma scrape_jumia_reviews_text (product_url : str) (n : Z) (delay : Delay)
  (w w' : World) (rs : list review) :
  scrape_jumia_reviews product_url n delay w = (Ok rs, w') ->
  Forall (fun r => review_has_text r = true) rs.
Proof.
  unfold scrape_jumia_reviews, bind, lift.
  destruct (normalize_url product_url) as [base|e]; [|discriminate].
  apply review_pages_loop_text. constructor.
Qed.

Lemma products_loop_rows (key : str) (rp : Z) (delay : Delay)
  (urls : list str) :
  forall acc w rows w',
    Forall (row_ok key) acc ->
    products_loop key rp delay urls acc w = (Ok rows, w') ->
    Forall (row_ok key) rows.
Proof.
  induction urls as [|u rest IH]; intros acc w rows w' Hacc H;
    cbn [products_loop] in H.
  - injection H as <- _. exact Hacc.
  - unfold bind at 1 in H.
    destruct (scrape_jumia_reviews u rp delay w) as [[rs|e] w1] eqn:Hs;
      [|discriminate].
    apply scrape_jumia_reviews_text in Hs.
    apply (IH _ _ _ _) in H; [exact H|].
    apply Forall_app. split; [exact Hacc|].
    apply Forall_forall. intros r Hr. apply in_map_iff in Hr.
    destruct Hr as (r0 & <- & Hr0). rewrite Forall_forall in Hs.
    split; [reflexivity | exact (Hs r0 Hr0)].
Qed.

Lemma category_pages_loop_rows (key url : str) (rp : Z) (delay : Delay)
  (todo : list Z) :
  forall acc w rows w',
    Forall (row_ok key) acc ->
    category_pages_loop key url rp delay todo acc w = (Ok rows, w') ->
    Forall (row_ok key) rows.
Proof.
  induction todo as [|page rest IH]; intros acc w rows w' Hacc H;
    cbn [category_pages_loop] in H.
  - injection H as <- _. exact Hacc.
  - unfold bind at 1 in H.
    destruct (fetch_page url [(lit "page", page)] w) as [[html|e] w1];
      [|discriminate].
    unfold bind at 1, lift in H.
    destruct (parse_category_product_urls html url) as [[|u us]|e];
      [injection H as <- _; exact Hacc | | discriminate].
    unfold bind at 1 in H.
    destruct (products_loop key rp delay (u :: us) acc w1)
      as [[rows1|e] w2] eqn:Hp; [|discriminate].
    apply products_loop_rows in Hp; [|exact Hacc].
    unfold bind at 1 in H.
    destruct (sleep_if (delay_truthy delay) delay w2) as [[[]|e] w3];
      [|discriminate].
    exact (IH _ _ _ _ Hp H).
Qed.

Lemma scrape_category_rows (key : str) (pages rp : Z) (delay : Delay)
  (w w' : World) (rows : list row) :
  scrape_category key pages rp delay w = (Ok rows, w') ->
  Forall (row_ok key) rows /\ registered key = true.
Proof.
  unfold scrape_category, bind, lift, registry_lookup, registered.
  destruct (lookup key CATEGORY_URLS) as [url|]; [|discriminate].
  intro H. split; [|reflexivity].
  apply (category_pages_loop_rows key url rp delay (page_range pages)
           [] w rows w');
    [constructor | exact H].
Qed.

(** Every row the category crawler returns carries the key of the
    category and has a title or a body. *)
Theorem category_rows_tagged (key : str) (pages rp : Z) (delay : Delay)
  (w w' : World) (rows : list row) (r : row) :
  scrape_category key pages rp delay w = (Ok rows, w') ->
  In r rows ->
  row_category r = key /\ row_has_text r = true.
Proof.
  intros H Hin. apply scrape_category_rows in H. destruct H as [H _].
  rewrite Forall_forall in H. exact (H r Hin).
Qed.

Lemma categories_loop_rows (cats : list str) (cp rp : Z) (delay : Delay)
  (all : list str) :
  forall acc w rows w',
    (forall k, In k cats -> In k all) ->
    Forall (fun r => In (row_category r) all
                     /\ registered (row_category r) = true
                     /\ row_has_text r = true) acc ->
    categories_loop cats cp rp delay acc w = (Ok rows, w') ->
    Forall (fun r => In (row_category r) all
                     /\ registered (row_category r) = true
                     /\ row_has_text r = true) rows.
Proof.
  induction cats as [|key rest IH]; intros acc w rows w' Hsub Hacc H;
    cbn [categories_loop] in H.
  - injection H as <- _. exact Hacc.
  - assert (Hrest : forall k, In k rest -> In k all)
      by (intros k Hk; apply Hsub; now right).
    destruct (registered key) eqn:Hk; cbn [negb] in H.
    + unfold bind at 1 in H.
      destruct (scrape_category key cp rp delay w) as [[rs|e] w1] eqn:Hs;
        [|discriminate].
      apply scrape_category_rows in Hs. destruct Hs as [Hs _].
      apply (IH _ _ _ _ Hrest) in H; [exact H|].
      apply Forall_app. split; [exact Hacc|].
      revert Hs. apply Forall_impl. intros r [Hc Ht]. rewrite Hc.
      repeat split; auto. apply Hsub. now left.
    + exact (IH _ _ _ _ Hrest Hacc H).
Qed.

(** Every row the orchestrator returns carries a key that is among the
    requested keys and in the registry, and has a title or a body. *)
Theorem orchestrator_rows_tagged (cats : list str) (cp rp : Z)
  (delay : Delay) (w w' : World) (rows : list row) (r : row) :
  scrape_multiple_categories cats cp rp delay w = (Ok rows, w') ->
  In r rows ->
  In (row_category r) cats /\ registered (row_category r) = true
  /\ row_has_text r = true.
Proof.
  intros H Hin. unfold scrape_multiple_categories in H.
  apply (categories_loop_rows cats cp rp delay cats [] w rows w') in H;
    [|auto|constructor].
  rewrite Forall_forall in H. exact (H r Hin).
Qed.

(** ** A listing page without product links *)

(** When the first listing page of a registered category is fetched and
    holds no product link, the category crawler returns no row after
    that one request, without sleeping. *)
Theorem empty_listing_stops (key url html : str) (pages rp : Z)
  (delay : Delay) (w w1 : World) :
  (1 <= pages)%Z ->
  lookup key CATEGORY_URLS = Some url ->
  fetch_page url [(lit "page", 1%Z)] w = (Ok html, w1) ->
  parse_category_product_urls html url = Ok [] ->
  scrape_category key pages rp delay w = (Ok [], w1).
Proof.
  intros Hp Hk Hf Hl.
  unfold scrape_category, registry_lookup, bind, lift. rewrite Hk.
  rewrite (page_range_split pages 1 (conj (Z.le_refl 1) Hp)).
  change (page_range (1 - 1)) with (@nil Z).
  cbn [app category_pages_loop]. unfold bind, lift.
  rewrite Hf, Hl. reflexivity.
Qed.

End CrawlerEdges.


(** ** What the review crawler does to the recorded world *)

Section TraceFacts.
Import TraceWorld.


Variable s : site.
Context {NC : NetlocChecks} {HP : HtmlParser}.

Lemma fetch_page_trace (url : str) (params : list (str * Z))
  (w : list event) :
  snd (@fetch_page (trace_env s) url params w) = w ++ [Get url params].
Proof.
  unfold fetch_page, bind. cbn [requests_get trace_env].
  destruct (s url params) as [resp|e]; [|reflexivity].
  now destruct (is_error_status resp).
Qed.

Lemma sleep_if_trace (b : bool) (d : Z) (w : list event) :
  (@sleep_if (trace_env s) b d w = (Ok tt, w) /\ b = false)
  \/ (@sleep_if (trace_env s) b d w = (Ok tt, w ++ [Sleep d]) /\ b = true)
  \/ (exists e, @sleep_if (trace_env s) b d w = (Raise e, w)).
Proof.
  destruct b; cbn [sleep_if time_sleep trace_env].
  - destruct (d <? 0)%Z; [right; right; now exists ValueError|].
    right. left. auto.
  - left. auto.
Qed.

Lemma review_pages_loop_trace (base : str) (pages delay : Z)
  (todo : list Z) :
  (forall k, In k todo -> (1 <= k <= pages)%Z) ->
  (todo = [] \/ (pages <= last todo 0)%Z) ->
  forall acc w,
  exists t,
    snd (@review_pages_loop (trace_env s) HP base pages delay todo acc w) = w ++ t
    /\ Forall (review_event base pages delay) t
    /\ match todo with
       | [] => t = []
       | _ :: _ => exists t' u p, t = t' ++ [Get u p]
       end
    /\ length (filter is_get t) <= length todo.
Proof.
  induction todo as [|page rest IH]; intros Hin Hlast acc w.
  - exists []. cbn. rewrite app_nil_r. repeat split; auto.
  - cbn [review_pages_loop]. unfold bind at 1.
    pose proof (fetch_page_trace base [(lit "page", page)] w) as Hf.
    set (g := Get base [(lit "page", page)]) in *.
    assert (Hev : review_event base pages delay g).
    { split; [reflexivity|]. exists page. split; [reflexivity|].
      apply Hin. now left. }
    assert (Hstop : exists t,
               w ++ [g] = w ++ t
               /\ Forall (review_event base pages delay) t
               /\ (exists t' u p, t = t' ++ [Get u p])
               /\ length (filter is_get t) <= length (page :: rest)).
    { exists [g]. repeat split.
      - constructor; [exact Hev | constructor].
      - now exists [], base, [(lit "page", page)].
      - cbn. lia. }
    destruct (@fetch_page (trace_env s) base [(lit "page", page)] w)
      as [[html|e] w1]; cbn [snd] in Hf; subst w1; [|exact Hstop].
    destruct (parse_reviews html) as [|r rs]; [exact Hstop|].
    unfold bind at 1.
    assert (Hin' : forall k, In k rest -> (1 <= k <= pages)%Z)
      by (intros k Hk; apply Hin; now right).
    assert (Hlast' : rest = [] \/ (pages <= last rest 0)%Z).
    { destruct rest as [|x rest']; [now left|]. right.
      destruct Hlast as [Hl | Hl]; [discriminate | exact Hl]. }
    assert (Hcons : forall slept : bool,
               (rest = [] -> slept = false) ->
               exists t,
                 snd (@review_pages_loop (trace_env s) HP base pages delay rest
                        (acc ++ r :: rs)
                        ((w ++ [g])
                         ++ (if slept then [Sleep delay] else []))) = w ++ t
                 /\ Forall (review_event base pages delay) t
                 /\ (exists t' u p, t = t' ++ [Get u p])
                 /\ length (filter is_get t) <= length (page :: rest)).
    { intros slept Hnil.
      set (tail := if slept then [Sleep delay] else []).
      assert (Htail : Forall (review_event base pages delay) tail).
      { unfold tail. destruct slept; repeat constructor. }
      assert (Hg : filter is_get tail = []).
      { unfold tail. now destruct slept. }
      destruct (IH Hin' Hlast' (acc ++ r :: rs) ((w ++ [g]) ++ tail))
        as (t & Ht & Hall & Hend & Hlen).
      exists (g :: tail ++ t). rewrite Ht, <- !app_assoc.
      repeat split.
      - constructor; [exact Hev|]. apply Forall_app. now split.
      - destruct rest as [|x rest'].
        + subst t. unfold tail. rewrite (Hnil eq_refl).
          now exists [], base, [(lit "page", page)].
        + destruct Hend as (t' & u & p & ->).
          exists (g :: tail ++ t'), u, p. cbn. now rewrite <- app_assoc.
      - cbn [filter is_get g length]. rewrite filter_app, Hg. cbn. lia. }
    destruct (sleep_if_trace (negb (delay =? 0)%Z && (page <? pages)%Z) delay
                (w ++ [g]))
      as [[Hs Hb] | [[Hs Hb] | [e Hs]]];
      cbn [delay_truthy trace_env]; rewrite Hs.
    + specialize (Hcons false (fun _ => eq_refl)).
      now rewrite app_nil_r in Hcons.
    + apply (Hcons true).
      intros ->. exfalso. destruct Hlast as [Hl | Hl]; [discriminate|].
      cbn in Hl. apply andb_true_iff in Hb. destruct Hb as [_ Hb].
      apply Z.ltb_lt in Hb. lia.
    + exact Hstop.
Qed.

Lemma page_range_last (pages : Z) :
  page_range pages = [] \/ (pages <= last (page_range pages) 0)%Z.
Proof.
  destruct (Z_le_gt_dec 1 pages) as [H | H].
  - right.
    rewrite (page_range_split pages pages (conj H (Z.le_refl pages))).
    replace (Z.to_nat pages - Z.to_nat pages) with 0 by lia.
    cbn [seq map]. rewrite last_last. lia.
  - left. unfold page_range. replace (Z.to_nat pages) with 0 by lia.
    reflexivity.
Qed.

(** On the recorded world, the review crawler only requests the
    normalized product URL with page numbers of [1..pages], makes at most
    [pages] requests, sleeps only for the given delay, and never ends on
    a sleep. *)
Theorem review_crawler_trace (product_url base : str) (pages delay : Z)
  (w : list event) :
  normalize_url product_url = Ok base ->
  exists t,
    snd (@scrape_jumia_reviews (trace_env s) NC HP product_url pages delay w) = w ++ t
    /\ Forall (review_event base pages delay) t
    /\ ends_with_get t
    /\ (Z.of_nat (length (filter is_get t)) <= Z.max 0 pages)%Z.
Proof.
  intro Hb. unfold scrape_jumia_reviews, bind, lift. rewrite Hb.
  destruct (review_pages_loop_trace base pages delay (page_range pages)
              (fun k => proj1 (page_range_In pages k))
              (page_range_last pages) [] w)
    as (t & Ht & Hall & Hend & Hlen).
  exists t. repeat split; auto.
  - destruct (page_range pages); [now left | now right].
  - unfold page_range in Hlen. rewrite length_map, length_seq in Hlen. lia.
Qed.

End TraceFacts.


Section Main.
Context {E : Env} {NC : NetlocChecks} {HP : HtmlParser}.

Lemma categories_loop_unregistered (cats : list str) (cp rp : Z)
  (delay : Delay) (acc : list row) (w : World) :
  forallb (fun k => negb (registered k)) cats = true ->
  categories_loop cats cp rp delay acc w = (Ok acc, w).
Proof.
  induction cats as [|key rest IH]; intros H; cbn [categories_loop].
  - reflexivity.
  - cbn [forallb] in H. apply andb_true_iff in H. destruct H as [Hk Hr].
    rewrite Hk. exact (IH Hr).
Qed.

(** When the crawl returns no row, [main] prints that it fetched 0
    reviews and that it saved them, and the file system is as it was: no
    file is made. *)
Theorem main_without_rows (args : Args) (w w' : World) (fs : FileSystem) :
  crawl args w = (Ok [], w') ->
  main args w fs
  = (Ok tt, (w', fs, [lit "Fetched 0 reviews";
                      lit "Saved reviews to " ++ arg_output args])).
Proof.
  unfold crawl, main. intros ->. reflexivity.
Qed.

(** When none of the requested keys is in the registry, [main] makes no
    request and no file, whatever the world and the page limits, and
    still prints both lines. *)
Theorem main_unknown_categories (args : Args) (w : World) (fs : FileSystem) :
  forallb (fun k => negb (registered k)) (arg_categories args) = true ->
  main args w fs
  = (Ok tt, (w, fs, [lit "Fetched 0 reviews";
                     lit "Saved reviews to " ++ arg_output args])).
Proof.
  intros H. unfold main, scrape_multiple_categories.
  rewrite (categories_loop_unregistered _ _ _ _ [] w H). reflexivity.
Qed.

(** When the crawl returns rows and the output path can be opened,
    [main] returns, the output file holds the header row and the rows in
    order, and the lines printed give the number of rows and the path. *)
Theorem main_with_rows (args : Args) (w w' : World) (fs : FileSystem)
  (rows : list row) :
  crawl args w = (Ok rows, w') ->
  rows <> [] ->
  writable fs (arg_output args) = true ->
  exists fs',
    main args w fs
    = (Ok tt,
       (w', fs',
        [lit "Fetched " ++ decimal (length rows) ++ lit " reviews";
         lit "Saved reviews to " ++ arg_output args]))
    /\ files fs' (arg_output args)
       = Some (Csv.row_text fieldnames
               ++ concat (map (fun r => Csv.row_text (row_fields r)) rows))
    /\ (forall p, p <> arg_output args -> files fs' p = files fs p).
Proof.
  intros Hc Hne Hw. unfold crawl in Hc. unfold main. rewrite Hc.
  destruct rows as [|r rest]; [congruence|].
  unfold save_reviews_to_csv, open_w. rewrite Hw.
  eexists. split; [reflexivity|]. split.
  - apply files_writerows_same.
    rewrite (files_write_same _ _ _ []); [reflexivity|].
    simpl. now rewrite str_eqb_refl.
  - intros p Hp. rewrite files_writerows_other by assumption.
    rewrite files_write_other by assumption.
    simpl. now rewrite (str_eqb_false _ _ Hp).
Qed.

End Main.


(** ** Closed instances of the properties above *)

Lemma records_have_title_or_body_witness :
  truthy (title Outage.spaced_review) || truthy (body Outage.spaced_review)
  = true.
Proof.
  apply (records_have_title_or_body Outage.spaced_doc).
  left. reflexivity.
Defined.

Lemma record_fields_trimmed_witness :
  parse_reviews_soup Outage.spaced_doc = [Outage.spaced_review]
  /\ trimmed (author Outage.spaced_review) = true
  /\ forallb not_space (rating Outage.spaced_review) = true.
Proof.
  split; [reflexivity|].
  pose proof (record_fields_trimmed Outage.spaced_doc Outage.spaced_review
                (or_introl eq_refl)) as H.
  split; apply H.
Defined.

Lemma normalized_has_no_query_fragment_witness :
  mem "?" (lit "https://x.test/p") = false
  /\ mem "#" (lit "https://x.test/p") = false.
Proof.
  apply (@normalized_has_no_query_fragment TraceWorld.lax_checks
           (lit "https://x.test/p?a=1#frag")).
  reflexivity.
Defined.

Lemma normalize_ignores_query_fragment_witness :
  @normalize_url TraceWorld.lax_checks (lit "https://x.test/p?a=1#frag")
  = @normalize_url TraceWorld.lax_checks (lit "https://x.test/p").
Proof.
  apply (@normalize_ignores_query_fragment TraceWorld.lax_checks
           (lit "https://x.test/p") (lit "a=1#frag") "?"%char).
  - reflexivity.
  - reflexivity.
  - left. reflexivity.
Defined.

Lemma malformed_link_aborts_witness :
  exists e',
    @parse_category_product_urls_soup TraceWorld.lax_checks
       Outage.broken_link_doc listing_base = Raise e'.
Proof.
  apply (@malformed_link_aborts TraceWorld.lax_checks
           Outage.broken_link_doc listing_base (lit "http://[x") ValueError).
  - right. left. reflexivity.
  - reflexivity.
Defined.

Lemma no_pages_no_request_witness :
  @scrape_jumia_reviews Shop.env TraceWorld.lax_checks Shop.parser
     Shop.product_a 0%Z 1%Z []
  = (Ok [], []).
Proof.
  refine (eq_trans
            (@no_pages_no_request Shop.env TraceWorld.lax_checks Shop.parser
               Shop.product_a 0%Z 1%Z [] _) _).
  - lia.
  - reflexivity.
Defined.

Lemma no_category_pages_no_request_witness :
  @scrape_category Shop.env TraceWorld.lax_checks Shop.parser
     (lit "electronics") (-1)%Z 1%Z 1%Z []
  = (Ok [], []).
Proof.
  apply (@no_category_pages_no_request Shop.env TraceWorld.lax_checks
           Shop.parser).
  - lia.
  - reflexivity.
Defined.

Lemma unknown_key_raises_witness :
  @scrape_category Shop.env TraceWorld.lax_checks Shop.parser
     (lit "toys") 1%Z 1%Z 1%Z []
  = (Raise KeyError, []).
Proof.
  apply (@unknown_key_raises Shop.env TraceWorld.lax_checks Shop.parser).
  reflexivity.
Defined.

Lemma failed_request_aborts_witness :
  fst (@scrape_jumia_reviews Outage.env TraceWorld.lax_checks Shop.parser
         Shop.product_a 3%Z 1%Z [])
  = Raise HTTPError.
Proof.
  apply (@failed_request_aborts Outage.env TraceWorld.lax_checks Shop.parser
           Shop.product_a Shop.product_a 3%Z 2%Z 1%Z
           (fun k => lit (Shop.page_of Shop.product_a k)) HTTPError []).
  - lia.
  - reflexivity.
  - intros j w' Hj. assert (Hc : j = 1%Z) by lia. subst j. reflexivity.
  - intros j Hj. assert (Hc : j = 1%Z) by lia. subst j. discriminate.
  - intros w'. reflexivity.
  - intros w'. reflexivity.
Defined.

Lemma category_rows_tagged_witness :
  row_category (tag_review (lit "electronics") Shop.product_b Shop.bad)
  = lit "electronics"
  /\ row_has_text (tag_review (lit "electronics") Shop.product_b Shop.bad)
     = true.
Proof.
  apply (@category_rows_tagged Shop.env TraceWorld.lax_checks Shop.parser
           (lit "electronics") 1%Z 1%Z 1%Z []
           [TraceWorld.Get Shop.electronics [(lit "page", 1%Z)];
            TraceWorld.Get Shop.product_a [(lit "page", 1%Z)];
            TraceWorld.Get Shop.product_b [(lit "page", 1%Z)];
            TraceWorld.Sleep 1]
           [tag_review (lit "electronics") Shop.product_a Shop.good;
            tag_review (lit "electronics") Shop.product_b Shop.bad]).
  - vm_compute. reflexivity.
  - right. left. reflexivity.
Defined.

Lemma orchestrator_rows_tagged_witness :
  In (lit "electronics") [lit "toys"; lit "electronics"]
  /\ registered (lit "electronics") = true
  /\ row_has_text (tag_review (lit "electronics") Shop.product_a Shop.good)
     = true.
Proof.
  apply (@orchestrator_rows_tagged Shop.env TraceWorld.lax_checks Shop.parser
           [lit "toys"; lit "electronics"] 1%Z 1%Z 1%Z []
           [TraceWorld.Get Shop.electronics [(lit "page", 1%Z)];
            TraceWorld.Get Shop.product_a [(lit "page", 1%Z)];
            TraceWorld.Get Shop.product_b [(lit "page", 1%Z)];
            TraceWorld.Sleep 1]
           [tag_review (lit "electronics") Shop.product_a Shop.good;
            tag_review (lit "electronics") Shop.product_b Shop.bad]
           (tag_review (lit "electronics") Shop.product_a Shop.good)).
  - vm_compute. reflexivity.
  - left. reflexivity.
Defined.

Lemma empty_listing_stops_witness :
  @scrape_category Shop.env TraceWorld.lax_checks Shop.parser
     (lit "fashion") 3%Z 1%Z 1%Z []
  = (Ok [],
     [TraceWorld.Get (lit "https://www.konga.com/category/konga-fashion-1259")
                     [(lit "page", 1%Z)]]).
Proof.
  apply (@empty_listing_stops Shop.env TraceWorld.lax_checks Shop.parser
           (lit "fashion")
           (lit "https://www.konga.com/category/konga-fashion-1259")
           (lit "none")).
  - lia.
  - reflexivity.
  - reflexivity.
  - reflexivity.
Defined.

Lemma review_crawler_trace_witness :
  exists t,
    snd (@scrape_jumia_reviews Shop.env TraceWorld.lax_checks Shop.parser
           (lit "https://www.konga.com/product/a?ref=1") 5%Z 1%Z [])
    = [] ++ t
    /\ Forall (review_event Shop.product_a 5 1) t
    /\ ends_with_get t
    /\ (Z.of_nat (length (filter is_get t)) <= Z.max 0 5)%Z.
Proof.
  apply (@review_crawler_trace Shop.shop TraceWorld.lax_checks Shop.parser
           (lit "https://www.konga.com/product/a?ref=1") Shop.product_a
           5%Z 1%Z []).
  reflexivity.
Defined.

Lemma main_without_rows_witness :
  @main Shop.env TraceWorld.lax_checks Shop.parser Outage.typo_args []
        empty_disk
  = (Ok tt, ([], empty_disk,
             [lit "Fetched 0 reviews";
              lit "Saved reviews to jumia_reviews.csv"])).
Proof.
  apply (@main_without_rows Shop.env TraceWorld.lax_checks Shop.parser
           Outage.typo_args [] [] empty_disk).
  reflexivity.
Defined.

Lemma main_unknown_categories_witness :
  @main Outage.env TraceWorld.lax_checks Shop.parser Outage.outage_args
        [TraceWorld.Sleep 1] empty_disk
  = (Ok tt, ([TraceWorld.Sleep 1], empty_disk,
             [lit "Fetched 0 reviews"; lit "Saved reviews to out.csv"])).
Proof.
  apply (@main_unknown_categories Outage.env TraceWorld.lax_checks Shop.parser
           Outage.outage_args [TraceWorld.Sleep 1] empty_disk).
  reflexivity.
Defined.

Lemma main_with_rows_witness :
  exists fs',
    @main Shop.env TraceWorld.lax_checks Shop.parser Outage.shop_args []
          empty_disk
    = (Ok tt,
       ([TraceWorld.Get Shop.electronics [(lit "page", 1%Z)];
         TraceWorld.Get Shop.product_a [(lit "page", 1%Z)];
         TraceWorld.Get Shop.product_b [(lit "page", 1%Z)];
         TraceWorld.Sleep 1],
        fs',
        [lit "Fetched 2 reviews"; lit "Saved reviews to jumia_reviews.csv"]))
    /\ files fs' (lit "jumia_reviews.csv")
       = Some (Csv.row_text fieldnames
               ++ concat (map (fun r => Csv.row_text (row_fields r))
                    [tag_review (lit "electronics") Shop.product_a Shop.good;
                     tag_review (lit "electronics") Shop.product_b Shop.bad]))
    /\ (forall p, p <> lit "jumia_reviews.csv" ->
                  files fs' p = files empty_disk p).
Proof.
  apply (@main_with_rows Shop.env TraceWorld.lax_checks Shop.parser
           Outage.shop_args []
           [TraceWorld.Get Shop.electronics [(lit "page", 1%Z)];
            TraceWorld.Get Shop.product_a [(lit "page", 1%Z)];
            TraceWorld.Get Shop.product_b [(lit "page", 1%Z)];
            TraceWorld.Sleep 1]
           empty_disk
           [tag_review (lit "electronics") Shop.product_a Shop.good;
            tag_review (lit "electronics") Shop.product_b Shop.bad]).
  - vm_compute. reflexivity.
  - discriminate.
  - reflexivity.
Defined.
